(** * minha-hq: comic store, AI client and creation workflow

    A shallow embedding of the three source files of the repository:
    - [server.ts]: the SQLite-backed REST routes for comics and panels;
    - [services/geminiService.ts]: the wrapper around the generative AI
      provider ([generateComicStory], [generatePanelImage], [translateText]);
    - [App.tsx]: the client-side creation workflow ([handleCreateComic]).

    Definitions come first, one module per source file, followed by the
    properties established about them. *)

From Stdlib Require Import NArith ZArith String Ascii.
From stdpp Require Import base option list sorting.

Local Open Scope N_scope.

(** ** JavaScript strings

    A JavaScript string is a sequence of UTF-16 code units.  Literals of the
    source are written with [js], which decodes the UTF-8 bytes of a Rocq
    string literal into code units. *)
Module JsString.

Definition jsstring := list N.

Definition bytes_of (s : string) : list N :=
  map N_of_ascii (list_ascii_of_string s).

(** UTF-8 decoding; a code point above U+FFFF becomes a surrogate pair. *)
Fixpoint utf8_decode (bs : list N) : jsstring :=
  match bs with
  | [] => []
  | b :: r =>
    if b <? 128 then b :: utf8_decode r
    else match r with
    | [] => []
    | b2 :: r2 =>
      if b <? 224 then
        N.lor (N.shiftl (N.land b 31) 6) (N.land b2 63) :: utf8_decode r2
      else match r2 with
      | [] => []
      | b3 :: r3 =>
        if b <? 240 then
          N.lor (N.shiftl (N.land b 15) 12)
            (N.lor (N.shiftl (N.land b2 63) 6) (N.land b3 63))
          :: utf8_decode r3
        else match r3 with
        | [] => []
        | b4 :: r4 =>
          let cp :=
            N.lor (N.shiftl (N.land b 7) 18)
              (N.lor (N.shiftl (N.land b2 63) 12)
                 (N.lor (N.shiftl (N.land b3 63) 6) (N.land b4 63))) in
          let v := cp - 65536 in
          (55296 + N.shiftr v 10) :: (56320 + N.land v 1023)
          :: utf8_decode r4
        end
      end
    end
  end.

Definition js (s : string) : jsstring := utf8_decode (bytes_of s).

Definition jsstring_eqb (a b : jsstring) : bool := bool_decide (a = b).

(** [s.length === 0] / falsiness of a string. *)
Definition is_empty (s : jsstring) : bool :=
  match s with [] => true | _ => false end.

(** [p] is a prefix of [s] (a literal pattern matches at the start). *)
Fixpoint starts_with (p s : jsstring) : bool :=
  match p, s with
  | [], _ => true
  | _ :: _, [] => false
  | a :: p', c :: s' => (a =? c) && starts_with p' s'
  end.

(** Length of the first alternative of [alts] matching at the start of
    [s]: the alternation [a1|a2|...] of a regular expression tries its
    alternatives from left to right. *)
Fixpoint first_match (alts : list jsstring) (s : jsstring) : option nat :=
  match alts with
  | [] => None
  | p :: rest =>
    if starts_with p s then Some (length p) else first_match rest s
  end.

(** [s.replace(/a1|a2|.../g, "")] for literal, non-empty alternatives: the
    text is scanned from the left, every match is removed and the scan
    resumes right after it.  [skip] counts the code units of the current
    match that are still to be dropped. *)
Fixpoint remove_from (alts : list jsstring) (skip : nat) (s : jsstring)
  : jsstring :=
  match s with
  | [] => []
  | c :: r =>
    match skip with
    | S k => remove_from alts k r
    | O =>
      match first_match alts s with
      | Some len => remove_from alts (pred len) r
      | None => c :: remove_from alts O r
      end
    end
  end.

Definition remove_all (alts : list jsstring) (s : jsstring) : jsstring :=
  remove_from alts O s.

(** White space and line terminators of ECMAScript, as removed by
    [String.prototype.trim]. *)
Definition is_js_space (c : N) : bool :=
  (c =? 9) || (c =? 10) || (c =? 11) || (c =? 12) || (c =? 13)
  || (c =? 32) || (c =? 160) || (c =? 5760)
  || ((8192 <=? c) && (c <=? 8202))
  || (c =? 8232) || (c =? 8233) || (c =? 8239) || (c =? 8287)
  || (c =? 12288) || (c =? 65279).

Fixpoint trimStart (s : jsstring) : jsstring :=
  match s with
  | [] => []
  | c :: r => if is_js_space c then trimStart r else s
  end.

Definition trimEnd (s : jsstring) : jsstring := rev (trimStart (rev s)).

Definition trim (s : jsstring) : jsstring := trimEnd (trimStart s).

(** [s.split(sep)] for a one-unit separator: never the empty array. *)
Fixpoint split (sep : N) (s : jsstring) : list jsstring :=
  match s with
  | [] => [[]]
  | c :: r =>
    if c =? sep then [] :: split sep r
    else match split sep r with
         | seg :: segs => (c :: seg) :: segs
         | [] => [[c]]
         end
  end.

(** [a || b] on strings: the empty string is falsy. *)
Definition or_else (a : option jsstring) (b : jsstring) : jsstring :=
  match a with
  | Some (c :: r) => c :: r
  | _ => b
  end.

(** [a || undefined] and the truthiness test of a string or null. *)
Definition truthy (a : option jsstring) : option jsstring :=
  match a with
  | Some (c :: r) => Some (c :: r)
  | _ => None
  end.

(** String conversion inside a template literal of a possibly undefined
    string. *)
Definition template_arg (a : option jsstring) : jsstring :=
  match a with
  | Some s => s
  | None => js "undefined"
  end.

End JsString.
Import JsString.

(** ** JSON values and [JSON.parse] *)
Module Json.

(** Numbers are kept as their lexeme: the conversion to a double is not
    needed by the code under study. *)
#[warnings="-register-all"]
Inductive JSValue :=
| JNull
| JBool (b : bool)
| JNumber (lexeme : jsstring)
| JString (s : jsstring)
| JArray (items : list JSValue)
| JObject (fields : list (jsstring * JSValue)).

(** Defining a property: an existing key keeps its place and takes the new
    value, a new key is appended. *)
Fixpoint obj_set (k : jsstring) (v : JSValue)
    (fields : list (jsstring * JSValue)) : list (jsstring * JSValue) :=
  match fields with
  | [] => [(k, v)]
  | (k', v') :: rest =>
    if jsstring_eqb k k' then (k, v) :: rest
    else (k', v') :: obj_set k v rest
  end.

Fixpoint obj_get (k : jsstring) (fields : list (jsstring * JSValue))
  : option JSValue :=
  match fields with
  | [] => None
  | (k', v') :: rest => if jsstring_eqb k k' then Some v' else obj_get k rest
  end.

(** The parser is a pushdown automaton reading one code unit at a time. *)
Inductive frame :=
| InArray (done : list JSValue)
| InObject (done : list (jsstring * JSValue)) (key : jsstring).

Inductive role :=
| AsValue
| AsKey (done : list (jsstring * JSValue)).

Inductive numstate :=
| NMinus | NZero | NInt | NDot | NFrac | NExp | NExpSign | NExpDigits.

Inductive mode :=
| WantValue (may_close : bool)
| WantKey (done : list (jsstring * JSValue)) (may_close : bool)
| WantColon (done : list (jsstring * JSValue)) (key : jsstring)
| HaveValue (v : JSValue)
| InStr (r : role) (acc : jsstring)
| InEsc (r : role) (acc : jsstring)
| InHex (r : role) (acc : jsstring) (digits : list N)
| InNum (st : numstate) (acc : jsstring)
| InLit (rest : jsstring) (v : JSValue).

Definition pstate : Type := mode * list frame.

(** JSON white space: space, tab, line feed, carriage return. *)
Definition is_json_ws (c : N) : bool :=
  (c =? 32) || (c =? 9) || (c =? 10) || (c =? 13).

Definition is_digit (c : N) : bool := (48 <=? c) && (c <=? 57).

Definition hex_val (c : N) : option N :=
  if is_digit c then Some (c - 48)
  else if (97 <=? c) && (c <=? 102) then Some (c - 87)
  else if (65 <=? c) && (c <=? 70) then Some (c - 55)
  else None.

Definition num_step (st : numstate) (c : N) : option numstate :=
  let exp := (c =? 101) || (c =? 69) in
  match st with
  | NMinus =>
    if c =? 48 then Some NZero else if is_digit c then Some NInt else None
  | NZero =>
    if c =? 46 then Some NDot else if exp then Some NExp else None
  | NInt =>
    if is_digit c then Some NInt
    else if c =? 46 then Some NDot else if exp then Some NExp else None
  | NDot => if is_digit c then Some NFrac else None
  | NFrac =>
    if is_digit c then Some NFrac else if exp then Some NExp else None
  | NExp =>
    if (c =? 43) || (c =? 45) then Some NExpSign
    else if is_digit c then Some NExpDigits else None
  | NExpSign => if is_digit c then Some NExpDigits else None
  | NExpDigits => if is_digit c then Some NExpDigits else None
  end.

Definition num_final (st : numstate) : bool :=
  match st with
  | NZero | NInt | NFrac | NExpDigits => true
  | _ => false
  end.

(** What [c] may be right after a complete value [v]. *)
Definition close_value (v : JSValue) (stack : list frame) (c : N)
  : option pstate :=
  if is_json_ws c then Some (HaveValue v, stack)
  else match stack with
  | [] => None
  | InArray done :: st =>
    if c =? 44 then Some (WantValue false, InArray (done ++ [v]) :: st)
    else if c =? 93 then Some (HaveValue (JArray (done ++ [v])), st)
    else None
  | InObject done key :: st =>
    if c =? 44 then Some (WantKey (obj_set key v done) false, st)
    else if c =? 125 then Some (HaveValue (JObject (obj_set key v done)), st)
    else None
  end.

(** The first code unit of a value. *)
Definition start_value (stack : list frame) (c : N) : option pstate :=
  if c =? 123 then Some (WantKey [] true, stack)
  else if c =? 91 then Some (WantValue true, InArray [] :: stack)
  else if c =? 34 then Some (InStr AsValue [], stack)
  else if c =? 45 then Some (InNum NMinus [c], stack)
  else if c =? 48 then Some (InNum NZero [c], stack)
  else if is_digit c then Some (InNum NInt [c], stack)
  else if c =? 116 then Some (InLit (js "rue") (JBool true), stack)
  else if c =? 102 then Some (InLit (js "alse") (JBool false), stack)
  else if c =? 110 then Some (InLit (js "ull") JNull, stack)
  else None.

Definition end_string (r : role) (acc : jsstring) : mode :=
  match r with
  | AsValue => HaveValue (JString acc)
  | AsKey done => WantColon done acc
  end.

Definition hex4 (ds : list N) : N :=
  fold_left (fun a d => 16 * a + d) ds 0.

Definition step (st : pstate) (c : N) : option pstate :=
  let '(m, stack) := st in
  match m with
  | WantValue may_close =>
    if is_json_ws c then Some st
    else if may_close && (c =? 93) then
      match stack with
      | InArray [] :: rest => Some (HaveValue (JArray []), rest)
      | _ => None
      end
    else start_value stack c
  | WantKey done may_close =>
    if is_json_ws c then Some st
    else if c =? 34 then Some (InStr (AsKey done) [], stack)
    else if may_close && (c =? 125) then Some (HaveValue (JObject done), stack)
    else None
  | WantColon done key =>
    if is_json_ws c then Some st
    else if c =? 58 then Some (WantValue false, InObject done key :: stack)
    else None
  | HaveValue v => close_value v stack c
  | InStr r acc =>
    if c =? 34 then Some (end_string r acc, stack)
    else if c =? 92 then Some (InEsc r acc, stack)
    else if c <? 32 then None
    else Some (InStr r (acc ++ [c]), stack)
  | InEsc r acc =>
    if (c =? 34) || (c =? 92) || (c =? 47) then Some (InStr r (acc ++ [c]), stack)
    else if c =? 98 then Some (InStr r (acc ++ [8]), stack)
    else if c =? 102 then Some (InStr r (acc ++ [12]), stack)
    else if c =? 110 then Some (InStr r (acc ++ [10]), stack)
    else if c =? 114 then Some (InStr r (acc ++ [13]), stack)
    else if c =? 116 then Some (InStr r (acc ++ [9]), stack)
    else if c =? 117 then Some (InHex r acc [], stack)
    else None
  | InHex r acc ds =>
    match hex_val c with
    | None => None
    | Some d =>
      if (length ds =? 3)%nat
      then Some (InStr r (acc ++ [hex4 (ds ++ [d])]), stack)
      else Some (InHex r acc (ds ++ [d]), stack)
    end
  | InNum ns acc =>
    match num_step ns c with
    | Some ns' => Some (InNum ns' (acc ++ [c]), stack)
    | None =>
      if num_final ns then close_value (JNumber acc) stack c else None
    end
  | InLit rest v =>
    match rest with
    | [] => None
    | x :: rest' =>
      if c =? x then
        Some (match rest' with [] => HaveValue v | _ => InLit rest' v end,
              stack)
      else None
    end
  end.

Fixpoint run (st : pstate) (s : jsstring) : option pstate :=
  match s with
  | [] => Some st
  | c :: r =>
    match step st c with
    | Some st' => run st' r
    | None => None
    end
  end.

Definition finish (st : pstate) : option JSValue :=
  match st with
  | (HaveValue v, []) => Some v
  | (InNum ns acc, []) => if num_final ns then Some (JNumber acc) else None
  | _ => None
  end.

(** [JSON.parse(s)]: [None] stands for the [SyntaxError] it throws. *)
Definition JSON_parse (s : jsstring) : option JSValue :=
  match run (WantValue false, []) s with
  | Some st => finish st
  | None => None
  end.

End Json.
Import Json.

(** ** Thrown values and the outcome of a call *)
Module Outcome.

Inductive exn :=
| Error (message : jsstring)
| SyntaxError
| TypeError
| SqliteError (code : jsstring)
| Rejection (reason : jsstring).

Inductive outcome (A : Type) :=
| Returned (a : A)
| Threw (e : exn).
Arguments Returned {A} a.
Arguments Threw {A} e.

End Outcome.
Import Outcome.

(** ** services/geminiService.ts *)
Module Gemini.

Record InlineData := {
  data : option jsstring;
  mimeType : option jsstring
}.

Record Part := {
  text : option jsstring;
  inlineData : option InlineData
}.

Inductive Contents :=
| ContentText (s : jsstring)
| ContentParts (parts : list Part).

#[warnings="-register-all"]
Inductive Schema :=
| TString
| TArray (items : Schema)
| TObject (properties : list (jsstring * Schema)) (required : list jsstring).

Inductive Config :=
| NoConfig
| JsonConfig (responseMimeType : jsstring) (responseSchema : Schema)
| ImageConfig (aspectRatio : jsstring).

Record Request := {
  model : jsstring;
  contents : Contents;
  config : Config
}.

Record Content := { parts : option (list Part) }.
Record Candidate := { content : option Content }.

(** What the code reads of a [GenerateContentResponse]. *)
Record Response := {
  response_text : option jsstring;
  candidates : option (list Candidate)
}.

Record Env := { GEMINI_API_KEY : option jsstring }.

Record Client := { apiKey : jsstring }.

(** Calls to the provider are the only effect of this file: a computation
    threads the log of the requests issued so far. *)
Definition AI (A : Type) : Type :=
  list Request -> outcome A * list Request.

Definition ret {A} (a : A) : AI A := fun log => (Returned a, log).
Definition throw {A} (e : exn) : AI A := fun log => (Threw e, log).
Definition bind {A B} (m : AI A) (k : A -> AI B) : AI B :=
  fun log =>
    match m log with
    | (Returned a, log') => k a log'
    | (Threw e, log') => (Threw e, log')
    end.
Definition try_catch {A} (m : AI A) (handler : exn -> AI A) : AI A :=
  fun log =>
    match m log with
    | (Returned a, log') => (Returned a, log')
    | (Threw e, log') => handler e log'
    end.

#[export] Instance AI_ret : MRet AI := @ret.
#[export] Instance AI_bind : MBind AI := fun A B k m => bind m k.

Definition story_schema : Schema :=
  TObject
    [ (js "title", TString);
      (js "panels",
       TArray
         (TObject
            [ (js "visualDescription", TString); (js "caption", TString) ]
            [ js "visualDescription"; js "caption" ])) ]
    [ js "title"; js "panels" ].

Definition story_prompt (prompt language : jsstring) : jsstring :=
  js "Crie uma história curta para uma história em quadrinhos baseada no seguinte tema: "
  ++ [34] ++ prompt ++ [34] ++ js ". " ++ [10]
  ++ js "    Retorne a história dividida em 4 a 6 painéis. " ++ [10]
  ++ js "    Para cada painel, forneça uma descrição visual detalhada (para geração de imagem) e um texto de legenda ou balão de fala."
  ++ [10]
  ++ js "    O idioma da resposta deve ser " ++ language ++ js ".".

Definition untitled_story : JSValue :=
  JObject [ (js "title", JString (js "História Sem Título"));
            (js "panels", JArray []) ].

Definition fence_json : jsstring := js "```json".
Definition fence : jsstring := js "```".

(** The alternatives of [/```json|```/g]. *)
Definition fences : list jsstring := [fence_json; fence].

Definition image_prompt (description : jsstring) : jsstring :=
  js "Gere uma imagem de estilo história em quadrinhos (comic book style) baseada na seguinte descrição: "
  ++ description ++ js ". Use cores vibrantes e traços fortes.".

Definition likeness_request : jsstring :=
  js " Incorpore as características da pessoa/objeto na imagem enviada para que o personagem se pareça com ela.".

Definition translate_prompt (txt targetLanguage : jsstring) : jsstring :=
  js "Traduza o seguinte texto para o idioma " ++ [34] ++ targetLanguage
  ++ [34] ++ js ":" ++ [10; 10] ++ txt.

(** [referenceImageBase64.split(',')[1] || referenceImageBase64] *)
Definition reference_data (referenceImageBase64 : jsstring) : jsstring :=
  or_else (split 44 referenceImageBase64 !! 1%nat) referenceImageBase64.

(** [parts[0].text += suffix] *)
Definition append_text (suffix : jsstring) (p : Part) : Part :=
  {| text := Some (template_arg (text p) ++ suffix);
     inlineData := inlineData p |}.

Definition image_parts (description : jsstring)
    (referenceImageBase64 : option jsstring) : list Part :=
  let parts :=
    [ {| text := Some (image_prompt description); inlineData := None |} ] in
  match referenceImageBase64 with
  | Some (c :: r) =>
    let parts :=
      parts ++
      [ {| text := None;
           inlineData :=
             Some {| data := Some (reference_data (c :: r));
                     mimeType := Some (js "image/png") |} |} ] in
    alter (append_text likeness_request) 0%nat parts
  | _ => parts
  end.

(** [response.candidates?.[0]?.content?.parts || []] *)
Definition response_parts (response : Response) : list Part :=
  match candidates response with
  | Some (cand :: _) =>
    match content cand with
    | Some c => match parts c with Some ps => ps | None => [] end
    | None => []
    end
  | _ => []
  end.

(** The [for ... of] loop over the parts: the first part with inline data
    ends the function. *)
Fixpoint first_inline_image (ps : list Part) : option jsstring :=
  match ps with
  | [] => None
  | part :: rest =>
    match inlineData part with
    | Some d => Some (js "data:image/png;base64," ++ template_arg (data d))
    | None => first_inline_image rest
    end
  end.

(** The three requests sent to [ai.models.generateContent]. *)
Definition story_request (prompt language : jsstring) : Request :=
  {| model := js "gemini-3-flash-preview";
     contents := ContentText (story_prompt prompt language);
     config := JsonConfig (js "application/json") story_schema |}.

Definition image_request (description : jsstring)
    (referenceImageBase64 : option jsstring) : Request :=
  {| model := js "gemini-2.5-flash-image";
     contents := ContentParts (image_parts description referenceImageBase64);
     config := ImageConfig (js "1:1") |}.

Definition translate_request (txt targetLanguage : jsstring) : Request :=
  {| model := js "gemini-3-flash-preview";
     contents := ContentText (translate_prompt txt targetLanguage);
     config := NoConfig |}.

Section Service.

Variable env : Env.
(** The provider's answer to the request issued after [n] earlier ones:
    a response, or the rejection of the awaited promise. *)
Variable provider : nat -> Request -> outcome Response.

Definition getAI : AI Client :=
  match GEMINI_API_KEY env with
  | Some (c :: r) => ret {| apiKey := c :: r |}
  | _ => throw (Error (js "GEMINI_API_KEY is not set"))
  end.

(** [await ai.models.generateContent(request)] *)
Definition generateContent (ai : Client) (request : Request)
  : AI Response :=
  fun log => (provider (length log) request, log ++ [request]).

(** The body of the [try] block of [generateComicStory]. *)
Definition parse_story (response : Response) : AI JSValue :=
  let text := or_else (response_text response) (js "{}") in
  let cleanJson := trim (remove_all fences text) in
  match JSON_parse cleanJson with
  | Some v => ret v
  | None => throw SyntaxError
  end.

Definition generateComicStory (prompt : jsstring)
    (language : option jsstring) : AI JSValue :=
  let language := default (js "pt-BR") language in
  ai ← getAI;
  response ← generateContent ai (story_request prompt language);
  try_catch (parse_story response) (fun e => ret untitled_story).

Definition generatePanelImage (description : jsstring)
    (referenceImageBase64 : option jsstring) : AI (option jsstring) :=
  ai ← getAI;
  response ← generateContent ai
    (image_request description referenceImageBase64);
  ret (first_inline_image (response_parts response)).

Definition translateText (txt targetLanguage : jsstring)
  : AI (option jsstring) :=
  ai ← getAI;
  response ← generateContent ai (translate_request txt targetLanguage);
  ret (response_text response).

End Service.

End Gemini.

(** ** server.ts *)
Module Server.

(** Rows of the two tables; a field is named after its table and column.
    Request bodies are taken well typed: text columns hold strings and
    [order_index] an integer.  A text column keeps the code units it was
    given, which is what the store gives back for well-formed text; the
    store holds UTF-8, so a lone surrogate would come back as U+FFFD, and
    statements about text read back are made for well-formed text. *)
Record ComicRow := {
  comics_id : jsstring;
  comics_title : jsstring;
  comics_description : jsstring;
  comics_created_at : N
}.

Record PanelRow := {
  panels_id : jsstring;
  panels_comic_id : jsstring;
  panels_image_url : jsstring;
  panels_caption : jsstring;
  panels_order_index : Z
}.

(** The database file: rows in insertion order, and whether the connection
    enforces the declared foreign key ([PRAGMA foreign_keys]). *)
Record Database := {
  comics : list ComicRow;
  panels : list PanelRow;
  foreign_keys : bool
}.

Definition has_comic (id : jsstring) (d : Database) : bool :=
  existsb (fun c => jsstring_eqb (comics_id c) id) (comics d).

Definition has_panel (id : jsstring) (d : Database) : bool :=
  existsb (fun p => jsstring_eqb (panels_id p) id) (panels d).

Definition references (id : jsstring) (d : Database) : bool :=
  existsb (fun p => jsstring_eqb (panels_comic_id p) id) (panels d).

(** [INSERT INTO comics (id, title, description) VALUES (?, ?, ?)] *)
Definition insert_comic (row : ComicRow) (d : Database) : outcome Database :=
  if has_comic (comics_id row) d
  then Threw (SqliteError (js "SQLITE_CONSTRAINT_PRIMARYKEY"))
  else Returned {| comics := comics d ++ [row]; panels := panels d;
                   foreign_keys := foreign_keys d |}.

(** [INSERT INTO panels (id, comic_id, image_url, caption, order_index)
     VALUES (?, ?, ?, ?, ?)] *)
Definition insert_panel (row : PanelRow) (d : Database) : outcome Database :=
  if has_panel (panels_id row) d
  then Threw (SqliteError (js "SQLITE_CONSTRAINT_PRIMARYKEY"))
  else if foreign_keys d && negb (has_comic (panels_comic_id row) d)
  then Threw (SqliteError (js "SQLITE_CONSTRAINT_FOREIGNKEY"))
  else Returned {| comics := comics d; panels := panels d ++ [row];
                   foreign_keys := foreign_keys d |}.

(** [DELETE FROM panels WHERE comic_id = ?] *)
Definition delete_panels (id : jsstring) (d : Database) : Database :=
  {| comics := comics d;
     panels :=
       filter (fun p => panels_comic_id p <> id) (panels d);
     foreign_keys := foreign_keys d |}.

(** [DELETE FROM comics WHERE id = ?] *)
Definition delete_comic (id : jsstring) (d : Database) : outcome Database :=
  if foreign_keys d && has_comic id d && references id d
  then Threw (SqliteError (js "SQLITE_CONSTRAINT_FOREIGNKEY"))
  else Returned
    {| comics :=
         filter (fun c => comics_id c <> id) (comics d);
       panels := panels d;
       foreign_keys := foreign_keys d |}.

(** [SELECT * FROM comics WHERE id = ?], first row. *)
Definition select_comic (id : jsstring) (d : Database) : option ComicRow :=
  find (fun c => jsstring_eqb (comics_id c) id) (comics d).

Definition order_index_le (p q : PanelRow) : Prop :=
  (panels_order_index p <= panels_order_index q)%Z.

#[export] Instance order_index_le_dec p q : Decision (order_index_le p q).
Proof. unfold order_index_le. apply _. Defined.

(** [SELECT * FROM panels WHERE comic_id = ? ORDER BY order_index ASC] *)
Definition select_panels (id : jsstring) (d : Database) : list PanelRow :=
  merge_sort order_index_le
    (filter (fun p => panels_comic_id p = id) (panels d)).

Definition created_at_ge (c d : ComicRow) : Prop :=
  (comics_created_at d <= comics_created_at c)%N.

#[export] Instance created_at_ge_dec c d : Decision (created_at_ge c d).
Proof. unfold created_at_ge. apply _. Defined.

(** [SELECT * FROM comics ORDER BY created_at DESC] *)
Definition select_comics (d : Database) : list ComicRow :=
  merge_sort created_at_ge (comics d).

Inductive HttpRequest :=
| GET_comics
| POST_comics (title description : jsstring)
| GET_comic (id : jsstring)
| DELETE_comic (id : jsstring)
| POST_panels (id image_url caption : jsstring) (order_index : Z).

Inductive Body :=
| ComicList (rows : list ComicRow)
| CreatedComic (id title description : jsstring)
| ComicWithPanels (comic : ComicRow) (panels : list PanelRow)
| ErrorMessage (error : jsstring)
| Success (success : bool)
| CreatedPanel (id image_url caption : jsstring) (order_index : Z).

(** A response with no JSON body is the error page Express sends when a
    handler throws. *)
Record HttpResponse := {
  status : nat;
  body : option Body
}.

Definition res_json (b : Body) : HttpResponse :=
  {| status := 200; body := Some b |}.

Definition uncaught : HttpResponse := {| status := 500; body := None |}.

(** The process: the database, the number of identifiers drawn so far and
    the wall clock read by [CURRENT_TIMESTAMP]. *)
Record State := {
  db : Database;
  uuid_calls : nat;
  clock : N
}.

Definition with_db (d : Database) (s : State) : State :=
  {| db := d; uuid_calls := uuid_calls s; clock := clock s |}.

Definition drew_uuid (s : State) : State :=
  {| db := db s; uuid_calls := S (uuid_calls s); clock := clock s |}.

Section Routes.

(** The [n]-th identifier produced by [uuidv4()]. *)
Variable uuidv4 : nat -> jsstring.

(** [app.get("/api/comics")] *)
Definition get_comics (s : State) : HttpResponse * State :=
  (res_json (ComicList (select_comics (db s))), s).

(** [app.post("/api/comics")] *)
Definition post_comics (title description : jsstring) (s : State)
  : HttpResponse * State :=
  let id := uuidv4 (uuid_calls s) in
  let s := drew_uuid s in
  match insert_comic
          {| comics_id := id; comics_title := title;
             comics_description := description;
             comics_created_at := clock s |} (db s) with
  | Returned d => (res_json (CreatedComic id title description), with_db d s)
  | Threw _ => (uncaught, s)
  end.

(** [app.get("/api/comics/:id")] *)
Definition get_comic (id : jsstring) (s : State) : HttpResponse * State :=
  match select_comic id (db s) with
  | None =>
    ({| status := 404;
        body := Some (ErrorMessage (js "Comic not found")) |}, s)
  | Some comic =>
    let panels := select_panels id (db s) in
    (res_json (ComicWithPanels comic panels), s)
  end.

(** [app.delete("/api/comics/:id")] *)
Definition delete_comic_route (id : jsstring) (s : State)
  : HttpResponse * State :=
  let d := delete_panels id (db s) in
  match delete_comic id d with
  | Returned d' => (res_json (Success true), with_db d' s)
  | Threw _ => (uncaught, with_db d s)
  end.

(** [app.post("/api/comics/:id/panels")] *)
Definition post_panels (comic_id image_url caption : jsstring)
    (order_index : Z) (s : State) : HttpResponse * State :=
  let id := uuidv4 (uuid_calls s) in
  let s := drew_uuid s in
  match insert_panel
          {| panels_id := id; panels_comic_id := comic_id;
             panels_image_url := image_url; panels_caption := caption;
             panels_order_index := order_index |} (db s) with
  | Returned d =>
    (res_json (CreatedPanel id image_url caption order_index), with_db d s)
  | Threw _ => (uncaught, s)
  end.

Definition handle (req : HttpRequest) (s : State) : HttpResponse * State :=
  match req with
  | GET_comics => get_comics s
  | POST_comics title description => post_comics title description s
  | GET_comic id => get_comic id s
  | DELETE_comic id => delete_comic_route id s
  | POST_panels id image_url caption order_index =>
    post_panels id image_url caption order_index s
  end.

(** The server starts on an empty database file; afterwards requests are
    served one at a time and the clock may advance in between. *)
Definition initial (fk : bool) (now : N) : State :=
  {| db := {| comics := []; panels := []; foreign_keys := fk |};
     uuid_calls := 0; clock := now |}.

Inductive reachable : State -> Prop :=
| reach_initial fk now : reachable (initial fk now)
| reach_request req s : reachable s -> reachable (handle req s).2
| reach_tick s later :
    reachable s -> (clock s <= later)%N ->
    reachable {| db := db s; uuid_calls := uuid_calls s; clock := later |}.

(** Serving a sequence of requests. *)
Definition serve (reqs : list HttpRequest) (s : State) : State :=
  fold_left (fun s req => (handle req s).2) reqs s.

End Routes.

(** Panels of one comic are pairwise distinct in [order_index]. *)
Definition order_key (p : PanelRow) : jsstring * Z :=
  (panels_comic_id p, panels_order_index p).

Definition order_index_unique (d : Database) : Prop :=
  NoDup (order_key <$> panels d).

End Server.

(** ** App.tsx: the creation workflow *)
Module App.
Import Gemini Server.

Record PanelData := {
  visualDescription : jsstring;
  caption : jsstring
}.

(** What the workflow touches: the provider (through the service), the
    server (through [fetch]) and the user (through [alert]).  The React
    state of the component is left out. *)
Record World := {
  ai_log : list Request;
  server : Server.State;
  http_log : list HttpRequest;
  alerts : list jsstring
}.

(** The story comes back untyped.  The workflow is followed on the values
    the response schema describes and on those stopped by its guard; on
    any other value the run is [Unmodelled]. *)
Inductive result (A : Type) :=
| Ok (a : A)
| Exn (e : exn)
| Unmodelled.
Arguments Ok {A} a.
Arguments Exn {A} e.
Arguments Unmodelled {A}.

Definition App (A : Type) : Type := World -> result A * World.

#[export] Instance App_ret : MRet App := fun A a w => (Ok a, w).
#[export] Instance App_bind : MBind App := fun A B k m w =>
  match m w with
  | (Ok a, w') => k a w'
  | (Exn e, w') => (Exn e, w')
  | (Unmodelled, w') => (Unmodelled, w')
  end.

Definition throw {A} (e : exn) : App A := fun w => (Exn e, w).
Definition unmodelled {A} : App A := fun w => (Unmodelled, w).

Definition try_catch {A} (m : App A) (handler : exn -> App A) : App A :=
  fun w =>
    match m w with
    | (Exn e, w') => handler e w'
    | r => r
    end.

Definition alert (message : jsstring) : App unit := fun w =>
  (Ok tt, {| ai_log := ai_log w; server := server w;
             http_log := http_log w; alerts := alerts w ++ [message] |}).

(** Awaiting a call of the service. *)
Definition await {A} (m : AI A) : App A := fun w =>
  match m (ai_log w) with
  | (r, log) =>
    (match r with Returned a => Ok a | Threw e => Exn e end,
     {| ai_log := log; server := server w;
        http_log := http_log w; alerts := alerts w |})
  end.

Definition as_panel (v : JSValue) : option PanelData :=
  match v with
  | JObject fs =>
    match obj_get (js "visualDescription") fs, obj_get (js "caption") fs with
    | Some (JString d), Some (JString c) =>
      Some {| visualDescription := d; caption := c |}
    | _, _ => None
    end
  | _ => None
  end.

(** [story.panels]: reading a property of [null] raises a [TypeError],
    a primitive or an array has no such property. [None] is a falsy
    value. *)
Definition story_panels (story : JSValue)
  : result (option (list PanelData)) :=
  match story with
  | JNull => Exn TypeError
  | JObject fs =>
    match obj_get (js "panels") fs with
    | None | Some JNull | Some (JBool false) | Some (JString []) => Ok None
    | Some (JArray items) =>
      match mapM as_panel items with
      | Some ps => Ok (Some ps)
      | None => Unmodelled
      end
    | Some _ => Unmodelled
    end
  | _ => Ok None
  end.

(** [story.title], once the guard is passed. *)
Definition story_title (story : JSValue) : result jsstring :=
  match story with
  | JObject fs =>
    match obj_get (js "title") fs with
    | Some (JString t) => Ok t
    | _ => Unmodelled
    end
  | _ => Unmodelled
  end.

(** A step without effect. *)
Definition eval {A} (r : result A) : App A := fun w => (r, w).

Definition failure_notice : jsstring :=
  js "Ocorreu um erro ao gerar sua HQ. Tente novamente.".

Section Workflow.

Variable env : Env.
Variable provider : nat -> Request -> outcome Response.
Variable uuidv4 : nat -> jsstring.

(** [await fetch(...)]: the request reaches the server. *)
Definition fetch (req : HttpRequest) : App HttpResponse := fun w =>
  match handle uuidv4 req (server w) with
  | (res, s) =>
    (Ok res, {| ai_log := ai_log w; server := s;
                http_log := http_log w ++ [req]; alerts := alerts w |})
  end.

(** [await res.json()] *)
Definition json (res : HttpResponse) : App Body :=
  match body res with
  | Some b => mret b
  | None => throw SyntaxError
  end.

(** The [for] loop of [handleCreateComic] from index [i] on. *)
Fixpoint generate_panels (comic_id : jsstring) (userImage : option jsstring)
    (rest : list PanelData) (i : nat) : App (list Body) :=
  match rest with
  | [] => mret []
  | panelData :: rest =>
    imageUrl ← await (generatePanelImage env provider
                        (visualDescription panelData) (truthy userImage));
    match truthy imageUrl with
    | Some imageUrl =>
      panelRes ← fetch (POST_panels comic_id imageUrl
                          (caption panelData) (Z.of_nat i));
      panel ← json panelRes;
      panels ← generate_panels comic_id userImage rest (S i);
      mret (panel :: panels)
    | None => generate_panels comic_id userImage rest (S i)
    end
  end.

Definition handleCreateComic (prompt language : jsstring)
    (userImage : option jsstring) : App unit :=
  if is_empty prompt then mret tt
  else
    try_catch
      (story ← await (generateComicStory env provider prompt
                        (Some language));
       panels ← eval (story_panels story);
       match panels with
       | None | Some [] => throw (Error (js "Falha ao gerar história"))
       | Some panels =>
         title ← eval (story_title story);
         res ← fetch (POST_comics title prompt);
         newComic ← json res;
         match newComic with
         | CreatedComic id _ _ =>
           _ ← generate_panels id userImage panels 0;
           mret tt
         | _ => unmodelled
         end
       end)
      (fun error => alert failure_notice).

End Workflow.

(** The panel writes among a list of requests. *)
Definition panel_writes (reqs : list HttpRequest)
  : list (jsstring * jsstring * jsstring * Z) :=
  omap (fun req =>
          match req with
          | POST_panels id url cap i => Some (id, url, cap, i)
          | _ => None
          end) reqs.

(** What a stored panel row holds besides its identifier. *)
Definition row_fields (p : PanelRow) : jsstring * jsstring * jsstring * Z :=
  (panels_comic_id p, panels_image_url p, panels_caption p,
   panels_order_index p).

(** The writes to expect from the loop when [imgs] are the values
    returned by [generatePanelImage] for [panels], counted from [i]. *)
Fixpoint kept_writes (comic_id : jsstring) (panels : list PanelData)
    (imgs : list (option jsstring)) (i : nat) : list HttpRequest :=
  match panels, imgs with
  | p :: panels, img :: imgs =>
    match img with
    | Some url => [POST_panels comic_id url (caption p) (Z.of_nat i)]
    | None => []
    end ++ kept_writes comic_id panels imgs (S i)
  | _, _ => []
  end.

(** A store on which the panel writes for [comic_id] succeed: the comic is
    there when the foreign key is enforced, and the identifiers still to
    be drawn are new and distinct. *)
Definition accepts (uuidv4 : nat -> jsstring) (comic_id : jsstring)
    (s : Server.State) : Prop :=
  (foreign_keys (db s) = true -> has_comic comic_id (db s) = true)
  /\ (forall n, (uuid_calls s <= n)%nat ->
                has_panel (uuidv4 n) (db s) = false)
  /\ (forall m n, (uuid_calls s <= m < n)%nat -> uuidv4 m <> uuidv4 n).

End App.

(** ** Sample data *)
Module Samples.
Import Gemini Server App.

(** A string literal of JSON text. *)
Definition quoted (s : string) : jsstring := [34] ++ js s ++ [34].

Definition configured : Env := {| GEMINI_API_KEY := Some (js "key") |}.
Definition unconfigured : Env := {| GEMINI_API_KEY := None |}.

(** A provider answering every request with the same text. *)
Definition answering (raw : option jsstring) (n : nat) (req : Request)
  : outcome Response :=
  Returned {| response_text := raw; candidates := None |}.

Definition text_part (s : string) : Part :=
  {| text := Some (js s); inlineData := None |}.

Definition inline_part (payload : string) : Part :=
  {| text := None;
     inlineData := Some {| data := Some (js payload);
                           mimeType := Some (js "image/png") |} |}.

Definition parts_response (ps : list Part) : Response :=
  {| response_text := None;
     candidates := Some [ {| content := Some {| parts := Some ps |} |} ] |}.

(** A provider answering every request with the same parts. *)
Definition drawing (ps : list Part) (n : nat) (req : Request)
  : outcome Response :=
  Returned (parts_response ps).

(** Raw text between an opening fence line and a closing fence line. *)
Definition fenced (opener t : jsstring) : jsstring :=
  opener ++ [10] ++ t ++ [10] ++ fence.

(** The [n]-th identifier is the one code unit [n]. *)
Definition counter_uuid (n : nat) : jsstring := [N.of_nat n].

(** A store with one comic, identified by the code unit 0, and its two
    panels, written out of order. *)
Definition one_comic : list HttpRequest :=
  [ POST_comics (js "T") (js "D");
    POST_panels (counter_uuid 0) (js "data:b") (js "second") 1;
    POST_panels (counter_uuid 0) (js "data:a") (js "first") 0 ].

Definition stocked : Server.State :=
  serve counter_uuid one_comic (initial true 0).

(** The same order index written twice for one comic. *)
Definition twice_zero : list HttpRequest :=
  [ POST_comics (js "T") (js "D");
    POST_panels (counter_uuid 0) (js "data:a") (js "first") 0;
    POST_panels (counter_uuid 0) (js "data:b") (js "again") 0 ].

Definition panel_json (description caption : string) : jsstring :=
  js "{" ++ quoted "visualDescription" ++ js ":" ++ quoted description
  ++ js "," ++ quoted "caption" ++ js ":" ++ quoted caption ++ js "}".

Definition three_panel_text : jsstring :=
  js "{" ++ quoted "title" ++ js ":" ++ quoted "T" ++ js ","
  ++ quoted "panels" ++ js ":[" ++ panel_json "d0" "c0" ++ js ","
  ++ panel_json "d1" "c1" ++ js "," ++ panel_json "d2" "c2" ++ js "]}".

Definition three_panels : list PanelData :=
  [ {| visualDescription := js "d0"; caption := js "c0" |};
    {| visualDescription := js "d1"; caption := js "c1" |};
    {| visualDescription := js "d2"; caption := js "c2" |} ].

(** A provider that writes a three-panel story and then draws every panel
    but the one asked for in its third answer. *)
Definition studio (n : nat) (req : Request) : outcome Response :=
  match n with
  | 0%nat =>
    Returned {| response_text := Some three_panel_text; candidates := None |}
  | 2%nat => Returned (parts_response [text_part "sorry"])
  | _ => Returned (parts_response [inline_part "QUJD"])
  end.

Definition drawn : jsstring := js "data:image/png;base64,QUJD".

Definition fresh_world : World :=
  {| ai_log := []; server := initial true 0; http_log := []; alerts := [] |}.

Definition empty_story_text : jsstring :=
  js "{" ++ quoted "title" ++ js ":" ++ quoted "T" ++ js ","
  ++ quoted "panels" ++ js ":[]}".

End Samples.

(** ** App.tsx: the list of comics shown *)
Module Shelf.
Import Gemini Server App.

(** The [Comic] objects held by the component: a row listed by the server
    carries [created_at] and no panels, a comic just created carries its
    panels. *)
Record Comic := {
  Comic_id : jsstring;
  Comic_title : jsstring;
  Comic_description : jsstring;
  Comic_created_at : option N;
  Comic_panels : option (list Body)
}.

Inductive View := home | editor | viewer.

(** The three pieces of React state that [fetchComics] and
    [handleDeleteComic] read or set; a state update is taken to be in
    effect when the next handler runs. *)
Record Screen := {
  state_comics : list Comic;
  state_currentComic : option Comic;
  state_view : View
}.

Definition listed (row : ComicRow) : Comic :=
  {| Comic_id := comics_id row; Comic_title := comics_title row;
     Comic_description := comics_description row;
     Comic_created_at := Some (comics_created_at row);
     Comic_panels := None |}.

Section Handlers.

Variable uuidv4 : nat -> jsstring.

(** [fetchComics]: the list shown becomes the list received. *)
Definition fetchComics (ws : World * Screen) : result unit * (World * Screen) :=
  let '(w, scr) := ws in
  match fetch uuidv4 GET_comics w with
  | (Ok res, w') =>
    match body res with
    | Some (ComicList rows) =>
      (Ok tt, (w', {| state_comics := listed <$> rows;
                      state_currentComic := state_currentComic scr;
                      state_view := state_view scr |}))
    | Some _ => (Unmodelled, (w', scr))
    | None => (Exn SyntaxError, (w', scr))
    end
  | (Exn e, w') => (Exn e, (w', scr))
  | (Unmodelled, w') => (Unmodelled, (w', scr))
  end.

(** [currentComic?.id === id] *)
Definition is_current (scr : Screen) (id : jsstring) : bool :=
  match state_currentComic scr with
  | Some c => jsstring_eqb (Comic_id c) id
  | None => false
  end.

(** [handleDeleteComic]; [confirmed] is the user's answer to [confirm]. *)
Definition handleDeleteComic (id : jsstring) (confirmed : bool)
    (ws : World * Screen) : result unit * (World * Screen) :=
  let '(w, scr) := ws in
  if negb confirmed then (Ok tt, ws)
  else
    match fetch uuidv4 (DELETE_comic id) w with
    | (Ok _, w') =>
      (Ok tt,
       (w', {| state_comics :=
                 filter (fun c => Comic_id c <> id) (state_comics scr);
               state_currentComic := state_currentComic scr;
               state_view :=
                 if is_current scr id then home else state_view scr |}))
    | (Exn e, w') => (Ok tt, (w', scr))
    | (Unmodelled, w') => (Unmodelled, (w', scr))
    end.

End Handlers.

(** The list shown and the store hold the same comics. *)
Definition mirrors (scr : Screen) (s : Server.State) : Prop :=
  Comic_id <$> state_comics scr ≡ₚ comics_id <$> comics (db s).

End Shelf.

(** ** More sample data *)
Module Scenarios.
Import Gemini Server App Shelf Samples.

(** A provider that writes the three-panel story, draws the first panel
    and rejects every later request. *)
Definition exhausted (n : nat) (req : Request) : outcome Response :=
  match n with
  | 0%nat =>
    Returned {| response_text := Some three_panel_text; candidates := None |}
  | 1%nat => Returned (parts_response [inline_part "QUJD"])
  | _ => Threw (Rejection (js "quota"))
  end.

Definition three_panel_story : JSValue :=
  JObject [ (js "title", JString (js "T"));
            (js "panels",
             JArray
               [ JObject [ (js "visualDescription", JString (js "d0"));
                           (js "caption", JString (js "c0")) ];
                 JObject [ (js "visualDescription", JString (js "d1"));
                           (js "caption", JString (js "c1")) ];
                 JObject [ (js "visualDescription", JString (js "d2"));
                           (js "caption", JString (js "c2")) ] ]) ].

(** A world whose store is [stocked], seen through an empty screen. *)
Definition stocked_world : World :=
  {| ai_log := []; server := stocked; http_log := []; alerts := [] |}.

Definition blank : Screen :=
  {| state_comics := []; state_currentComic := None; state_view := home |}.

(** A provider out of reach. *)
Definition refusing (n : nat) (req : Request) : outcome Response :=
  Threw (Rejection (js "offline")).

(** A store with two comics; the second has one panel. *)
Definition two_comics : Server.State :=
  serve counter_uuid
    [ POST_comics (js "A") (js "a"); POST_comics (js "B") (js "b");
      POST_panels (counter_uuid 1) (js "data:x") (js "only") 0 ]
    (initial true 0).

(** The comic of [stocked], open in the viewer. *)
Definition stocked_comic : Comic :=
  {| Comic_id := counter_uuid 0; Comic_title := js "T";
     Comic_description := js "D"; Comic_created_at := Some 0;
     Comic_panels := None |}.

Definition viewing_stocked : Screen :=
  {| state_comics := [stocked_comic];
     state_currentComic := Some stocked_comic; state_view := viewer |}.

End Scenarios.

(** ** Occurrences of a pattern *)
Module Infix.

(** [p] occurs somewhere in [s] ([s.includes(p)]). *)
Fixpoint occurs (p s : jsstring) : bool :=
  starts_with p s
  || match s with
     | [] => false
     | _ :: r => occurs p r
     end.

(** A literal being read has no white space left to read: kept by every
    step of the parser. *)
Definition lit_ok (st : pstate) : Prop :=
  match st.1 with
  | InLit rest _ => Forall (fun x => is_js_space x = false) rest
  | _ => True
  end.

(** [s.isWellFormed()]: no surrogate code unit stands alone.  The store
    keeps text as UTF-8, so only well-formed text is read back as it was
    written. *)
Definition is_lead (c : N) : bool := (55296 <=? c) && (c <=? 56319).
Definition is_trail (c : N) : bool := (56320 <=? c) && (c <=? 57343).

Fixpoint isWellFormed (s : jsstring) : bool :=
  match s with
  | [] => true
  | c :: r =>
    if is_lead c then
      match r with
      | d :: r' => is_trail d && isWellFormed r'
      | [] => false
      end
    else if is_trail c then false
    else isWellFormed r
  end.

End Infix.
Import Infix.

(** * Properties *)

(** ** The embedding at work *)
Section Evaluation.
Import Gemini Samples.

Example js_decodes_utf8 :
  js "História Sem Título"
  = [72; 105; 115; 116; 243; 114; 105; 97; 32; 83; 101; 109; 32; 84; 237;
     116; 117; 108; 111].
Proof. vm_compute. reflexivity. Qed.

Example parse_story_text :
  JSON_parse empty_story_text
  = Some (JObject [ (js "title", JString (js "T"));
                    (js "panels", JArray []) ]).
Proof. vm_compute. reflexivity. Qed.

Example parse_nested :
  JSON_parse (js " [1.5e3, -0, true, null, {}, [[]], " ++ quoted "a\n\u00e9"
              ++ js "] ")
  = Some (JArray [ JNumber (js "1.5e3"); JNumber (js "-0"); JBool true; JNull;
                   JObject []; JArray [JArray []];
                   JString [97; 10; 233] ]).
Proof. vm_compute. reflexivity. Qed.

Example parse_duplicate_key :
  JSON_parse (js "{" ++ quoted "a" ++ js ":1," ++ quoted "b" ++ js ":2,"
              ++ quoted "a" ++ js ":3}")
  = Some (JObject [ (js "a", JNumber (js "3")); (js "b", JNumber (js "2")) ]).
Proof. vm_compute. reflexivity. Qed.

Example parse_rejects :
  Forall (fun s => JSON_parse s = None)
    [ js ""; js "  "; js "oops"; js "[1,]"; js "01"; js "1."; js ".5";
      js "+1"; js "tru"; js "truex"; js "{} {}"; js "{a:1}"; js "[1 2]";
      js "-"; js "1e"; quoted "a" ++ js "x"; [65279] ++ js "{}";
      [34; 9; 34]; js "```json" ].
Proof. repeat constructor. Qed.

(** Fences are removed wherever they occur, also inside the payload. *)
Example remove_fences_everywhere :
  remove_all fences (js "a```jsonb```c``d") = js "abc``d".
Proof. vm_compute. reflexivity. Qed.

Example trim_unicode_space :
  trim ([65279; 160; 10] ++ js "{ }" ++ [8232; 32]) = js "{ }".
Proof. vm_compute. reflexivity. Qed.

Example split_segments :
  split 44 (js "a,b,c") = [js "a"; js "b"; js "c"]
  /\ split 44 [] = [[]]
  /\ split 44 (js "QUJD,") = [js "QUJD"; []].
Proof. vm_compute. repeat split; reflexivity. Qed.

End Evaluation.

(** A closed decidable fact, settled by evaluating its decision
    procedure. *)
Ltac by_evaluation := apply (bool_decide_unpack _); vm_compute; exact I.

(** ** Strings: removal of matches and trimming *)
Section StringFacts.

Lemma starts_with_length p s :
  starts_with p s = true -> (length p <= length s)%nat.
Proof.
  revert s. induction p as [|a p IH]; intros [|c s]; simpl; try lia.
  all: try discriminate.
  intros [_ H]%andb_prop. apply IH in H. lia.
Qed.

(** A code unit foreign to the pattern stops any match that would run
    past the end of [t]. *)
Lemma starts_with_app_foreign p t c suf :
  c ∉ p -> starts_with p (t ++ c :: suf) = starts_with p t.
Proof.
  revert t. induction p as [|a p IH]; intros t Hc; [by destruct t|].
  apply not_elem_of_cons in Hc as [Hne Hc].
  destruct t as [|x t]; simpl.
  - apply N.eqb_neq in Hne. rewrite N.eqb_sym in Hne. by rewrite Hne.
  - by rewrite IH.
Qed.

Lemma first_match_app_foreign alts t c suf :
  Forall (fun p => c ∉ p) alts ->
  first_match alts (t ++ c :: suf) = first_match alts t.
Proof.
  induction 1 as [|p alts Hp _ IH]; simpl; [done|].
  by rewrite starts_with_app_foreign, IH.
Qed.

Lemma first_match_length alts s len :
  first_match alts s = Some len -> (len <= length s)%nat.
Proof.
  induction alts as [|p alts IH]; simpl; [done|].
  destruct (starts_with p s) eqn:E; [|done].
  intros [= <-]. by apply starts_with_length.
Qed.

Lemma remove_from_app_foreign alts c suf t k :
  Forall (fun p => c ∉ p) alts -> (k <= length t)%nat ->
  remove_from alts k (t ++ c :: suf)
  = remove_from alts k t ++ remove_from alts 0 (c :: suf).
Proof.
  intros Hal. revert k. induction t as [|x t IH]; intros k Hk.
  - simpl in Hk. by replace k with 0%nat by lia.
  - destruct k as [|k].
    + change ((x :: t) ++ c :: suf) with (x :: (t ++ c :: suf)).
      cbn [remove_from].
      change (x :: (t ++ c :: suf)) with ((x :: t) ++ c :: suf).
      rewrite first_match_app_foreign by done.
      destruct (first_match alts (x :: t)) as [len|] eqn:E.
      * apply first_match_length in E. simpl in E. apply IH. lia.
      * simpl. f_equal. apply IH. lia.
    + simpl in *. apply IH. lia.
Qed.

Lemma starts_with_app_self p s : starts_with p (p ++ s) = true.
Proof. induction p as [|a p IH]; simpl; [done|]. by rewrite N.eqb_refl. Qed.

Lemma remove_from_drop alts p s :
  remove_from alts (length p) (p ++ s) = remove_from alts 0 s.
Proof. induction p as [|a p IH]; [done|]. apply IH. Qed.

(** A match at the very start of the text is removed. *)
Lemma remove_from_prefix alts p s :
  p <> [] -> first_match alts (p ++ s) = Some (length p) ->
  remove_from alts 0 (p ++ s) = remove_from alts 0 s.
Proof.
  destruct p as [|a p]; [done|]. intros _ Hm.
  change ((a :: p) ++ s) with (a :: (p ++ s)) in *.
  cbn [remove_from]. rewrite Hm. apply remove_from_drop.
Qed.

Lemma remove_from_keep alts c s :
  first_match alts (c :: s) = None ->
  remove_from alts 0 (c :: s) = c :: remove_from alts 0 s.
Proof. intros Hm. cbn [remove_from]. by rewrite Hm. Qed.

Lemma trimStart_snoc s c :
  is_js_space c = true ->
  (trimStart s = [] /\ trimStart (s ++ [c]) = [])
  \/ trimStart (s ++ [c]) = trimStart s ++ [c].
Proof.
  intros Hc. induction s as [|x s IH]; simpl.
  - left. by rewrite Hc.
  - destruct (is_js_space x); [done | by right].
Qed.

Lemma trimEnd_snoc s c :
  is_js_space c = true -> trimEnd (s ++ [c]) = trimEnd s.
Proof.
  intros Hc. unfold trimEnd. rewrite rev_app_distr. simpl. by rewrite Hc.
Qed.

Lemma trim_between a b s :
  is_js_space a = true -> is_js_space b = true ->
  trim (a :: s ++ [b]) = trim s.
Proof.
  intros Ha Hb. unfold trim. simpl. rewrite Ha.
  destruct (trimStart_snoc s b Hb) as [[-> ->]| ->]; [done|].
  by apply trimEnd_snoc.
Qed.

End StringFacts.

(** ** The AI client *)
Section GeminiFacts.
Import Gemini Samples.

Lemma newline_foreign_to_fences : Forall (fun p => 10 ∉ p) fences.
Proof. by_evaluation. Qed.

Lemma fence_json_units : fence_json = [96; 96; 96; 106; 115; 111; 110].
Proof. vm_compute. reflexivity. Qed.

Lemma fence_units : fence = [96; 96; 96].
Proof. vm_compute. reflexivity. Qed.

Lemma first_match_fence_json s :
  first_match fences (fence_json ++ s) = Some (length fence_json).
Proof. unfold fences. cbn [first_match]. by rewrite starts_with_app_self. Qed.

Lemma first_match_fence_line s :
  first_match fences (fence ++ 10 :: s) = Some (length fence).
Proof.
  unfold fences. cbn [first_match]. rewrite starts_with_app_self.
  rewrite fence_json_units, fence_units. reflexivity.
Qed.

Lemma first_match_newline s : first_match fences (10 :: s) = None.
Proof. unfold fences. rewrite fence_json_units, fence_units. reflexivity. Qed.

Lemma remove_fences_fenced opener t :
  opener ∈ fences ->
  remove_all fences (fenced opener t) = 10 :: remove_all fences t ++ [10].
Proof.
  intros Hop. unfold remove_all.
  assert (Htail : remove_from fences 0 (10 :: t ++ 10 :: fence)
                  = 10 :: remove_from fences 0 t ++ [10]).
  { rewrite remove_from_keep by apply first_match_newline. f_equal.
    rewrite remove_from_app_foreign
      by (apply newline_foreign_to_fences || lia).
    f_equal. }
  change (fenced opener t) with (opener ++ 10 :: t ++ 10 :: fence).
  unfold fences in Hop.
  apply elem_of_cons in Hop as [->|Hop];
    [|apply list_elem_of_singleton in Hop as ->].
  - rewrite remove_from_prefix;
      [done | by rewrite fence_json_units | apply first_match_fence_json].
  - rewrite remove_from_prefix;
      [done | by rewrite fence_units | apply first_match_fence_line].
Qed.

(** The text handed to [JSON.parse]. *)
Lemma clean_fenced opener t :
  opener ∈ fences ->
  trim (remove_all fences (fenced opener t)) = trim (remove_all fences t).
Proof.
  intros Hop. rewrite remove_fences_fenced by done.
  by apply trim_between.
Qed.

Lemma JSON_parse_empty : JSON_parse [] = None.
Proof. reflexivity. Qed.

Lemma getAI_configured env key log :
  GEMINI_API_KEY env = Some key -> key <> [] ->
  getAI env log = (Returned {| apiKey := key |}, log).
Proof. unfold getAI. intros -> Hk. by destruct key. Qed.

Lemma getAI_unconfigured env log :
  truthy (GEMINI_API_KEY env) = None ->
  getAI env log = (Threw (Error (js "GEMINI_API_KEY is not set")), log).
Proof. unfold getAI. by destruct (GEMINI_API_KEY env) as [[|c r]|]. Qed.

(** One call of [generateComicStory] with a configured key and an answering
    provider. *)
Lemma generateComicStory_run env key provider prompt language log response :
  GEMINI_API_KEY env = Some key -> key <> [] ->
  provider (length log)
    (story_request prompt (default (js "pt-BR") language))
  = Returned response ->
  generateComicStory env provider prompt language log
  = (Returned
       (match JSON_parse
                (trim (remove_all fences
                         (or_else (response_text response) (js "{}")))) with
        | Some v => v
        | None => untitled_story
        end),
     log ++ [story_request prompt (default (js "pt-BR") language)]).
Proof.
  intros Hkey Hne Hp. unfold generateComicStory, mbind, AI_bind, bind.
  rewrite (getAI_configured _ _ _ Hkey Hne).
  unfold generateContent. rewrite Hp.
  unfold try_catch, parse_story.
  by destruct (JSON_parse _).
Qed.

Lemma generatePanelImage_run env key provider description ref log response :
  GEMINI_API_KEY env = Some key -> key <> [] ->
  provider (length log) (image_request description ref) = Returned response ->
  generatePanelImage env provider description ref log
  = (Returned (first_inline_image (response_parts response)),
     log ++ [image_request description ref]).
Proof.
  intros Hkey Hne Hp. unfold generatePanelImage, mbind, AI_bind, bind.
  rewrite (getAI_configured _ _ _ Hkey Hne).
  unfold generateContent. by rewrite Hp.
Qed.

Lemma first_inline_image_none ps :
  Forall (fun p => inlineData p = None) ps -> first_inline_image ps = None.
Proof. induction 1 as [|p ps Hp _ IH]; simpl; [done|]. by rewrite Hp. Qed.

Lemma first_inline_image_first before part d after :
  Forall (fun p => inlineData p = None) before ->
  inlineData part = Some d ->
  first_inline_image (before ++ part :: after)
  = Some (js "data:image/png;base64," ++ template_arg (data d)).
Proof.
  induction 1 as [|p ps Hp _ IH]; simpl; intros Hd.
  - by rewrite Hd.
  - rewrite Hp. by apply IH.
Qed.

Lemma fenced_nonempty opener t : opener ∈ fences -> fenced opener t <> [].
Proof.
  intros Hop. unfold fences in Hop.
  apply elem_of_cons in Hop as [->|Hop];
    [|apply list_elem_of_singleton in Hop as ->].
  - unfold fenced. by rewrite fence_json_units.
  - unfold fenced. by rewrite fence_units.
Qed.

Lemma or_else_nonempty s d : s <> [] -> or_else (Some s) d = s.
Proof. by destruct s. Qed.

(** C1 (as amended): with a configured key and an answering provider,
    [generateComicStory] never throws; when the response text, once the
    fences are removed and the result trimmed, is not JSON, it returns
    the title "História Sem Título" with an empty panel list; when the
    response text is absent or empty it returns the empty object. *)
Theorem generateComicStory_parse_failure
    env key provider prompt language log response :
  GEMINI_API_KEY env = Some key -> key <> [] ->
  provider (length log)
    (story_request prompt (default (js "pt-BR") language))
  = Returned response ->
  exists story,
    generateComicStory env provider prompt language log
    = (Returned story,
       log ++ [story_request prompt (default (js "pt-BR") language)])
    /\ (truthy (response_text response) = None -> story = JObject [])
    /\ (forall raw,
          truthy (response_text response) = Some raw ->
          JSON_parse (trim (remove_all fences raw)) = None ->
          story = untitled_story).
Proof.
  intros Hkey Hne Hp. eexists. split; [by eapply generateComicStory_run|].
  split.
  - intros Hraw.
    by destruct (response_text response) as [[|c r]|].
  - intros raw Hraw Hbad.
    destruct (response_text response) as [[|c r]|]; simplify_eq/=.
    by rewrite Hbad.
Qed.

Lemma generateComicStory_parse_failure_witness :
  generateComicStory configured (answering (Some (js "oops")))
    (js "tema") None []
  = (Returned untitled_story, [story_request (js "tema") (js "pt-BR")])
  /\ generateComicStory configured (answering None) (js "tema") None []
     = (Returned (JObject []), [story_request (js "tema") (js "pt-BR")]).
Proof.
  split.
  - destruct (generateComicStory_parse_failure configured (js "key")
                (answering (Some (js "oops"))) (js "tema") None []
                {| response_text := Some (js "oops"); candidates := None |})
      as (story & Hrun & _ & Hbad);
      [reflexivity | vm_compute; discriminate | reflexivity |].
    rewrite Hrun.
    rewrite (Hbad (js "oops")); [reflexivity | reflexivity |].
    vm_compute. reflexivity.
  - destruct (generateComicStory_parse_failure configured (js "key")
                (answering None) (js "tema") None []
                {| response_text := None; candidates := None |})
      as (story & Hrun & Hempty & _);
      [reflexivity | vm_compute; discriminate | reflexivity |].
    rewrite Hrun. rewrite Hempty; reflexivity.
Defined.

(** C1 (as stated) fails: on text that is not JSON the title returned is
    not "Untitled"; on an absent or empty response the result is the
    empty object; and fenced JSON, which [JSON.parse] rejects as it
    stands, is parsed. *)
Lemma generateComicStory_not_untitled :
  let run raw :=
    (generateComicStory configured (answering raw) (js "tema") None []).1 in
  let claimed :=
    Returned (JObject [ (js "title", JString (js "Untitled"));
                        (js "panels", JArray []) ]) in
  (JSON_parse (js "oops") = None /\ run (Some (js "oops")) <> claimed)
  /\ run None <> claimed
  /\ (JSON_parse [] = None /\ run (Some []) <> claimed)
  /\ (JSON_parse (fenced fence_json (js "{}")) = None
      /\ run (Some (fenced fence_json (js "{}"))) <> claimed).
Proof.
  vm_compute. repeat split; try reflexivity; discriminate.
Qed.

(** C7: [generatePanelImage] returns the first part with inline data of
    the first candidate, as a PNG data URI, and [null] when no part has
    inline data; it does not throw in either case. *)
Theorem generatePanelImage_first_inline
    env key provider description ref log response :
  GEMINI_API_KEY env = Some key -> key <> [] ->
  provider (length log) (image_request description ref) = Returned response ->
  (Forall (fun p => inlineData p = None) (response_parts response) ->
   generatePanelImage env provider description ref log
   = (Returned None, log ++ [image_request description ref]))
  /\ (forall before part d after,
        response_parts response = before ++ part :: after ->
        Forall (fun p => inlineData p = None) before ->
        inlineData part = Some d ->
        generatePanelImage env provider description ref log
        = (Returned
             (Some (js "data:image/png;base64," ++ template_arg (data d))),
           log ++ [image_request description ref])).
Proof.
  intros Hkey Hne Hp.
  rewrite (generatePanelImage_run _ _ _ _ _ _ _ Hkey Hne Hp). split.
  - intros Hnone. by rewrite first_inline_image_none.
  - intros before part d after -> Hbefore Hd.
    by rewrite (first_inline_image_first _ _ _ _ Hbefore Hd).
Qed.

Lemma generatePanelImage_first_inline_witness :
  generatePanelImage configured
    (drawing [text_part "ok"; inline_part "QUJD"; inline_part "REVG"])
    (js "um gato") None []
  = (Returned (Some (js "data:image/png;base64,QUJD")),
     [image_request (js "um gato") None])
  /\ generatePanelImage configured (drawing [text_part "no image"])
       (js "um gato") None []
     = (Returned None, [image_request (js "um gato") None]).
Proof.
  split.
  - destruct (generatePanelImage_first_inline configured (js "key")
                (drawing [text_part "ok"; inline_part "QUJD";
                          inline_part "REVG"])
                (js "um gato") None []
                (parts_response [text_part "ok"; inline_part "QUJD";
                                 inline_part "REVG"]))
      as [_ Hfirst]; [reflexivity | vm_compute; discriminate | reflexivity |].
    rewrite (Hfirst [text_part "ok"] (inline_part "QUJD")
               {| data := Some (js "QUJD"); mimeType := Some (js "image/png") |}
               [inline_part "REVG"]).
    + vm_compute. reflexivity.
    + reflexivity.
    + repeat constructor.
    + reflexivity.
  - destruct (generatePanelImage_first_inline configured (js "key")
                (drawing [text_part "no image"]) (js "um gato") None []
                (parts_response [text_part "no image"]))
      as [Hnone _]; [reflexivity | vm_compute; discriminate | reflexivity |].
    rewrite Hnone; [reflexivity | repeat constructor].
Defined.

(** C8: without [GEMINI_API_KEY] every function of the service throws the
    error raised by [getAI], and the request log is left as it was: no
    request reaches the provider. *)
Theorem missing_credential env provider log :
  GEMINI_API_KEY env = None ->
  (forall prompt language,
     generateComicStory env provider prompt language log
     = (Threw (Error (js "GEMINI_API_KEY is not set")), log))
  /\ (forall description ref,
        generatePanelImage env provider description ref log
        = (Threw (Error (js "GEMINI_API_KEY is not set")), log))
  /\ (forall txt targetLanguage,
        translateText env provider txt targetLanguage log
        = (Threw (Error (js "GEMINI_API_KEY is not set")), log)).
Proof.
  intros Hkey.
  assert (getAI env log
          = (Threw (Error (js "GEMINI_API_KEY is not set")), log)) as Hai
    by (apply getAI_unconfigured; by rewrite Hkey).
  repeat split; intros;
    unfold generateComicStory, generatePanelImage, translateText,
      mbind, AI_bind, bind; by rewrite Hai.
Qed.

Lemma missing_credential_witness :
  generateComicStory unconfigured (answering (Some empty_story_text))
    (js "tema") None []
  = (Threw (Error (js "GEMINI_API_KEY is not set")), [])
  /\ generatePanelImage unconfigured (drawing [inline_part "QUJD"])
       (js "um gato") None []
     = (Threw (Error (js "GEMINI_API_KEY is not set")), [])
  /\ translateText unconfigured (answering (Some (js "hello")))
       (js "olá") (js "en") []
     = (Threw (Error (js "GEMINI_API_KEY is not set")), []).
Proof.
  split; [|split].
  - apply (missing_credential unconfigured
             (answering (Some empty_story_text)) []). reflexivity.
  - apply (missing_credential unconfigured
             (drawing [inline_part "QUJD"]) []). reflexivity.
  - apply (missing_credential unconfigured
             (answering (Some (js "hello"))) []). reflexivity.
Defined.

(** An empty key counts as missing too. *)
Lemma empty_credential provider log prompt language :
  generateComicStory {| GEMINI_API_KEY := Some [] |} provider prompt
    language log
  = (Threw (Error (js "GEMINI_API_KEY is not set")), log).
Proof. reflexivity. Qed.

Lemma split_no_separator sep s : sep ∉ s -> split sep s = [s].
Proof.
  induction s as [|c s IH]; [done|].
  intros [Hne Hs]%not_elem_of_cons. simpl.
  apply N.eqb_neq in Hne. rewrite N.eqb_sym in Hne. rewrite Hne.
  by rewrite IH.
Qed.

Lemma split_at_first sep pre rest :
  sep ∉ pre -> split sep (pre ++ sep :: rest) = pre :: split sep rest.
Proof.
  induction pre as [|c pre IH]; simpl.
  - intros _. by rewrite N.eqb_refl.
  - intros [Hne Hs]%not_elem_of_cons.
    apply N.eqb_neq in Hne. rewrite N.eqb_sym in Hne. rewrite Hne.
    by rewrite IH.
Qed.

(** The segment between the first comma and the next one (or the end). *)
Lemma reference_data_segment pre seg rest :
  44 ∉ pre -> 44 ∉ seg -> rest = [] \/ (exists r, rest = 44 :: r) ->
  reference_data (pre ++ 44 :: seg ++ rest)
  = if is_empty seg then pre ++ 44 :: seg ++ rest else seg.
Proof.
  intros Hpre Hseg Hrest. unfold reference_data.
  rewrite split_at_first by done.
  destruct Hrest as [->|[r ->]].
  - rewrite app_nil_r, split_no_separator by done. simpl.
    by destruct seg.
  - rewrite split_at_first by done. simpl. by destruct seg.
Qed.

(** C10 (as amended): a non-empty reference image is sent as a second part
    of type image/png and the likeness sentence is appended to the
    instruction text.  The data sent is the argument itself when it has no
    comma, the text after the comma when it has exactly one comma with
    text after it, and in general the segment between the first comma and
    the next one (or the end), unless that segment is empty, in which case
    the argument is sent unchanged. *)
Theorem image_parts_reference description ref :
  ref <> [] ->
  image_parts description (Some ref)
  = [ {| text := Some (image_prompt description ++ likeness_request);
         inlineData := None |};
      {| text := None;
         inlineData := Some {| data := Some (reference_data ref);
                               mimeType := Some (js "image/png") |} |} ]
  /\ (44 ∉ ref -> reference_data ref = ref)
  /\ (forall pre payload,
        ref = pre ++ 44 :: payload -> 44 ∉ pre -> 44 ∉ payload ->
        payload <> [] -> reference_data ref = payload)
  /\ (forall pre seg rest,
        ref = pre ++ 44 :: seg ++ rest -> 44 ∉ pre -> 44 ∉ seg ->
        rest = [] \/ (exists r, rest = 44 :: r) ->
        reference_data ref = if is_empty seg then ref else seg).
Proof.
  intros Hne. split; [by destruct ref|]. split; [|split].
  - intros Hno. unfold reference_data.
    rewrite split_no_separator by done. by destruct ref.
  - intros pre payload -> Hpre Hpay Hnil.
    rewrite <- (app_nil_r payload) at 1.
    rewrite reference_data_segment by auto. by destruct payload.
  - intros pre seg rest -> Hpre Hseg Hrest.
    by apply reference_data_segment.
Qed.

Lemma image_parts_reference_witness :
  image_parts (js "um gato") (Some (js "data:image/png;base64,QUJD"))
  = [ {| text := Some (image_prompt (js "um gato") ++ likeness_request);
         inlineData := None |};
      {| text := None;
         inlineData := Some {| data := Some (js "QUJD");
                               mimeType := Some (js "image/png") |} |} ]
  /\ reference_data (js "QUJD") = js "QUJD".
Proof.
  split.
  - destruct (image_parts_reference (js "um gato")
                (js "data:image/png;base64,QUJD"))
      as (Hparts & _ & Hone & _); [vm_compute; discriminate|].
    rewrite (Hone (js "data:image/png;base64") (js "QUJD")) in Hparts;
      [exact Hparts | vm_compute; reflexivity | | | vm_compute; discriminate].
    + by_evaluation.
    + by_evaluation.
  - destruct (image_parts_reference (js "um gato") (js "QUJD"))
      as (_ & Hnone & _); [vm_compute; discriminate|].
    apply Hnone. by_evaluation.
Defined.

(** C10 (as stated) fails: with two commas only the middle segment is
    sent, not all that follows the first comma; with nothing after the
    comma the argument is sent whole; and an empty argument adds neither
    the image nor the likeness sentence. *)
Lemma reference_data_not_suffix :
  ~ (forall ref pre post,
       ref = pre ++ 44 :: post -> 44 ∉ pre -> reference_data ref = post)
  /\ reference_data (js "a,b,c") = js "b"
  /\ reference_data (js "QUJD,") = js "QUJD,"
  /\ image_parts (js "um gato") (Some [])
     = [ {| text := Some (image_prompt (js "um gato"));
            inlineData := None |} ].
Proof.
  split; [|by vm_compute].
  intros H. specialize (H (js "a,b,c") (js "a") (js "b,c")).
  vm_compute in H.
  assert (44 ∉ [97]) as Hno by by_evaluation.
  specialize (H eq_refl Hno). discriminate.
Qed.

End GeminiFacts.

(** ** The store and its routes *)
Section ServerFacts.
Import Server Samples.

Variable uuidv4 : nat -> jsstring.

#[local] Instance order_index_le_total : Total order_index_le.
Proof. intros p q. unfold order_index_le. lia. Qed.

#[local] Instance order_index_le_trans : Transitive order_index_le.
Proof. intros p q r. unfold order_index_le. lia. Qed.

Lemma jsstring_eqb_true a b : jsstring_eqb a b = true <-> a = b.
Proof. unfold jsstring_eqb. apply bool_decide_eq_true. Qed.

Lemma existsb_false {A} (f : A -> bool) l :
  (forall x, x ∈ l -> f x = false) -> existsb f l = false.
Proof.
  intros H. destruct (existsb f l) eqn:E; [|done].
  apply existsb_exists in E as (x & Hin%list_elem_of_In & Hx).
  by rewrite H in Hx.
Qed.

Lemma find_absent {A} (f : A -> bool) l :
  (forall x, x ∈ l -> f x = false) -> find f l = None.
Proof.
  intros H. destruct (find f l) as [x|] eqn:E; [|done].
  apply find_some in E as [Hin%list_elem_of_In Hx].
  by rewrite H in Hx.
Qed.

Lemma find_present {A} (f : A -> bool) l x :
  x ∈ l -> f x = true -> exists y, find f l = Some y.
Proof.
  intros Hin Hx. destruct (find f l) as [y|] eqn:E; [by eexists|].
  apply list_elem_of_In in Hin.
  by rewrite (find_none _ _ E _ Hin) in Hx.
Qed.

Lemma filter_twice {A} (P : A -> Prop) `{!forall x, Decision (P x)}
    (l : list A) :
  filter P (filter P l) = filter P l.
Proof.
  rewrite list_filter_filter. apply list_filter_iff. intros x. tauto.
Qed.

Lemma references_delete_panels id d :
  references id (delete_panels id d) = false.
Proof.
  apply existsb_false. intros p [Hp _]%list_elem_of_filter.
  apply not_true_iff_false. by rewrite jsstring_eqb_true.
Qed.

(** The [DELETE] route never meets a constraint. *)
Lemma delete_comic_route_run id s :
  delete_comic_route id s
  = (res_json (Success true),
     with_db
       {| comics := filter (fun c => comics_id c <> id) (comics (db s));
          panels := filter (fun p => panels_comic_id p <> id) (panels (db s));
          foreign_keys := foreign_keys (db s) |} s).
Proof.
  unfold delete_comic_route, delete_comic.
  rewrite references_delete_panels, andb_false_r. reflexivity.
Qed.

(** C4: [GET /api/comics/:id] answers 404 when no comic has the id;
    otherwise it answers with a comic of that id and with its panels:
    exactly the stored panels of that comic, in ascending [order_index]. *)
Theorem get_comic_with_panels id s :
  ((exists c, c ∈ comics (db s) /\ comics_id c = id) ->
   exists comic ps,
     handle uuidv4 (GET_comic id) s
     = (res_json (ComicWithPanels comic ps), s)
     /\ comic ∈ comics (db s) /\ comics_id comic = id
     /\ ps ≡ₚ filter (fun p => panels_comic_id p = id) (panels (db s))
     /\ StronglySorted Z.le (panels_order_index <$> ps))
  /\ ((forall c, c ∈ comics (db s) -> comics_id c <> id) ->
      handle uuidv4 (GET_comic id) s
      = ({| status := 404;
            body := Some (ErrorMessage (js "Comic not found")) |}, s)).
Proof.
  split.
  - intros (c & Hin & Hid). simpl. unfold get_comic, select_comic.
    destruct (find_present (fun c => jsstring_eqb (comics_id c) id)
                (comics (db s)) c Hin) as [comic Hfind];
      [by apply jsstring_eqb_true|].
    rewrite Hfind. apply find_some in Hfind as [Hc Heq].
    exists comic, (select_panels id (db s)). split; [done|].
    split; [by apply list_elem_of_In|].
    split; [by apply jsstring_eqb_true|].
    split; [apply merge_sort_Permutation|].
    apply (StronglySorted_fmap _ order_index_le); [done|].
    apply (StronglySorted_merge_sort _).
  - intros Hnone. simpl. unfold get_comic, select_comic.
    rewrite find_absent; [done|].
    intros c Hc. apply not_true_iff_false. rewrite jsstring_eqb_true.
    by apply Hnone.
Qed.

(** C5: [DELETE /api/comics/:id] answers [{success: true}] and leaves no
    panel and no comic of that id, all other rows being kept; a [GET] of
    the id then answers 404, and a second [DELETE] answers
    [{success: true}] again and changes nothing. *)
Theorem delete_comic_cascade id s :
  let r := handle uuidv4 (DELETE_comic id) s in
  r.1 = res_json (Success true)
  /\ panels (db r.2) = filter (fun p => panels_comic_id p <> id) (panels (db s))
  /\ comics (db r.2) = filter (fun c => comics_id c <> id) (comics (db s))
  /\ (forall p, p ∈ panels (db r.2) -> panels_comic_id p <> id)
  /\ (forall c, c ∈ comics (db r.2) -> comics_id c <> id)
  /\ (handle uuidv4 (GET_comic id) r.2).1
     = {| status := 404; body := Some (ErrorMessage (js "Comic not found")) |}
  /\ handle uuidv4 (DELETE_comic id) r.2 = (res_json (Success true), r.2).
Proof.
  simpl. rewrite !delete_comic_route_run. simpl.
  split; [done|]. split; [done|]. split; [done|].
  assert (forall c,
            c ∈ filter (fun c => comics_id c <> id) (comics (db s)) ->
            comics_id c <> id) as Hgone
    by (by intros c [Hc _]%list_elem_of_filter).
  split; [by intros p [Hp _]%list_elem_of_filter|].
  split; [done|]. split.
  - unfold get_comic, select_comic. simpl.
    rewrite find_absent; [done|].
    intros c Hc. apply not_true_iff_false. rewrite jsstring_eqb_true.
    by apply Hgone.
  - unfold with_db. simpl. by rewrite !filter_twice.
Qed.

Lemma handle_keeps_panels req s :
  (forall id url cap i, req <> POST_panels id url cap i) ->
  panels (db (handle uuidv4 req s).2) `sublist_of` panels (db s).
Proof.
  intros Hreq. destruct req as [|title description|id|id|id url cap i]; simpl.
  - done.
  - unfold post_comics, insert_comic. simpl. by destruct (has_comic _ _).
  - unfold get_comic. by destruct (select_comic _ _).
  - rewrite delete_comic_route_run. simpl. apply sublist_filter.
  - by destruct (Hreq id url cap i).
Qed.

Lemma post_panels_panels id url cap i s :
  let s' := (post_panels uuidv4 id url cap i s).2 in
  panels (db s') = panels (db s)
  \/ panels (db s')
     = panels (db s)
       ++ [ {| panels_id := uuidv4 (uuid_calls s); panels_comic_id := id;
               panels_image_url := url; panels_caption := cap;
               panels_order_index := i |} ].
Proof.
  unfold post_panels, insert_panel. simpl.
  destruct (has_panel _ _); [by left|].
  destruct (_ && _); [by left | by right].
Qed.

(** C2 (as amended): the routes keep the panels of each comic pairwise
    distinct in [order_index], provided a panel write does not repeat an
    order index already stored for its comic. *)
Theorem order_index_unique_preserved req s :
  order_index_unique (db s) ->
  (forall id url cap i,
     req = POST_panels id url cap i ->
     (id, i) ∉ order_key <$> panels (db s)) ->
  order_index_unique (db (handle uuidv4 req s).2).
Proof.
  unfold order_index_unique. intros Huniq Hfresh.
  assert ((exists id url cap i, req = POST_panels id url cap i)
          \/ (forall id url cap i, req <> POST_panels id url cap i))
    as [(id & url & cap & i & ->)|Hother]
    by (destruct req; first [by right | left; by eexists _, _, _, _]).
  - simpl. destruct (post_panels_panels id url cap i s) as [-> | ->];
      [done|].
    rewrite fmap_app. apply NoDup_app. split; [done|].
    split; [|apply NoDup_singleton].
    intros k Hk Hin. apply list_elem_of_singleton in Hin. subst k.
    by apply (Hfresh id url cap i).
  - eapply sublist_NoDup; [exact Huniq|].
    by apply fmap_sublist, handle_keeps_panels.
Qed.

End ServerFacts.

Section ServerExamples.
Import Server Samples.

Lemma reachable_serve uuidv4 reqs s :
  reachable uuidv4 s -> reachable uuidv4 (serve uuidv4 reqs s).
Proof.
  revert s. induction reqs as [|req reqs IH]; intros s Hs; [done|].
  simpl. apply IH. by constructor.
Qed.

Lemma get_comic_with_panels_witness :
  (exists comic ps,
     handle counter_uuid (GET_comic (counter_uuid 0)) stocked
     = (res_json (ComicWithPanels comic ps), stocked)
     /\ comic ∈ comics (db stocked) /\ comics_id comic = counter_uuid 0
     /\ ps ≡ₚ filter (fun p => panels_comic_id p = counter_uuid 0)
                (panels (db stocked))
     /\ StronglySorted Z.le (panels_order_index <$> ps))
  /\ handle counter_uuid (GET_comic (js "missing")) stocked
     = ({| status := 404;
           body := Some (ErrorMessage (js "Comic not found")) |}, stocked).
Proof.
  split.
  - apply (get_comic_with_panels counter_uuid (counter_uuid 0) stocked).
    eexists. split.
    + vm_compute. left.
    + reflexivity.
  - apply (get_comic_with_panels counter_uuid (js "missing") stocked).
    intros c Hc. vm_compute in Hc.
    apply list_elem_of_singleton in Hc. subst c. vm_compute. discriminate.
Defined.

(** The panels come back in ascending order although they were written
    in descending order. *)
Example get_comic_stocked :
  (handle counter_uuid (GET_comic (counter_uuid 0)) stocked).1
  = res_json
      (ComicWithPanels
         {| comics_id := counter_uuid 0; comics_title := js "T";
            comics_description := js "D"; comics_created_at := 0 |}
         [ {| panels_id := counter_uuid 2;
              panels_comic_id := counter_uuid 0;
              panels_image_url := js "data:a";
              panels_caption := js "first"; panels_order_index := 0 |};
           {| panels_id := counter_uuid 1;
              panels_comic_id := counter_uuid 0;
              panels_image_url := js "data:b";
              panels_caption := js "second"; panels_order_index := 1 |} ]).
Proof. vm_compute. reflexivity. Qed.

Lemma delete_comic_cascade_witness :
  let r := handle counter_uuid (DELETE_comic (counter_uuid 0)) stocked in
  r.1 = res_json (Success true)
  /\ panels (db r.2) = [] /\ comics (db r.2) = []
  /\ (handle counter_uuid (GET_comic (counter_uuid 0)) r.2).1
     = {| status := 404; body := Some (ErrorMessage (js "Comic not found")) |}
  /\ handle counter_uuid (DELETE_comic (counter_uuid 0)) r.2
     = (res_json (Success true), r.2).
Proof.
  destruct (delete_comic_cascade counter_uuid (counter_uuid 0) stocked)
    as (Hres & Hpanels & Hcomics & _ & _ & Hget & Hagain).
  split; [exact Hres|].
  split; [rewrite Hpanels; vm_compute; reflexivity|].
  split; [rewrite Hcomics; vm_compute; reflexivity|].
  split; [exact Hget | exact Hagain].
Defined.

Lemma order_index_unique_preserved_witness :
  order_index_unique
    (db (handle counter_uuid
           (POST_panels (counter_uuid 0) (js "data:c") (js "third") 2)
           stocked).2).
Proof.
  apply (order_index_unique_preserved counter_uuid).
  - unfold order_index_unique. by_evaluation.
  - intros id url cap i [= <- _ _ <-]. by_evaluation.
Defined.

(** C2 (as stated) fails: writing order index 0 twice for one comic is
    accepted, and the state reached holds two panels of that comic with
    the same order index. *)
Lemma order_index_not_unique :
  let s := serve counter_uuid twice_zero (initial true 0) in
  reachable counter_uuid s
  /\ order_key <$> panels (db s)
     = [(counter_uuid 0, 0%Z); (counter_uuid 0, 0%Z)]
  /\ ~ order_index_unique (db s).
Proof.
  split; [apply reachable_serve; constructor|].
  split; [vm_compute; reflexivity|].
  unfold order_index_unique. intros Hdup.
  apply (bool_decide_pack _) in Hdup. vm_compute in Hdup. exact Hdup.
Qed.

End ServerExamples.

(** ** The creation workflow *)
Section WorkflowFacts.
Import Gemini Server App.

Variable env : Env.
Variable provider : nat -> Request -> outcome Response.
Variable uuidv4 : nat -> jsstring.

(** C3: when the story comes back without panels (the property is
    missing or falsy) or with an empty panel list, [handleCreateComic]
    only notifies the failure: no request is sent to the server and the
    store is left as it was. *)
Theorem no_panels_no_comic prompt language userImage w story log :
  prompt <> [] ->
  generateComicStory env provider prompt (Some language) (ai_log w)
  = (Returned story, log) ->
  story_panels story = Ok None \/ story_panels story = Ok (Some []) ->
  handleCreateComic env provider uuidv4 prompt language userImage w
  = (Ok tt,
     {| ai_log := log; server := server w; http_log := http_log w;
        alerts := alerts w ++ [failure_notice] |}).
Proof.
  intros Hprompt Hstory Hpanels.
  unfold handleCreateComic. destruct prompt as [|c prompt]; [done|].
  cbn [is_empty].
  unfold try_catch, mbind, App_bind, await. rewrite Hstory.
  unfold eval.
  destruct Hpanels as [-> | ->]; reflexivity.
Qed.

Lemma truthy_first_inline_image ps :
  truthy (first_inline_image ps) = first_inline_image ps.
Proof.
  induction ps as [|p ps IH]; simpl; [done|].
  by destruct (inlineData p).
Qed.

(** A panel write on a store that accepts it. *)
Lemma post_panels_accepted comic_id url cap i s :
  accepts uuidv4 comic_id s ->
  exists s',
    handle uuidv4 (POST_panels comic_id url cap i) s
    = (res_json (CreatedPanel (uuidv4 (uuid_calls s)) url cap i), s')
    /\ accepts uuidv4 comic_id s'
    /\ panels (db s')
       = panels (db s)
         ++ [ {| panels_id := uuidv4 (uuid_calls s);
                 panels_comic_id := comic_id; panels_image_url := url;
                 panels_caption := cap; panels_order_index := i |} ]
    /\ comics (db s') = comics (db s).
Proof.
  intros (Hfk & Hfresh & Hinj). simpl. unfold post_panels, insert_panel.
  cbn [drew_uuid db uuid_calls clock panels_id panels_comic_id].
  rewrite Hfresh by lia.
  assert (foreign_keys (db s) && negb (has_comic comic_id (db s)) = false)
    as -> by (destruct (foreign_keys (db s)); [by rewrite Hfk|done]).
  eexists. split; [reflexivity|]. split; [|done].
  split; [exact Hfk|]. split.
  - intros n Hn. cbn [with_db drew_uuid db uuid_calls] in *.
    unfold has_panel. cbn [panels]. rewrite existsb_app, orb_false_iff.
    split; [apply Hfresh; lia|]. simpl. rewrite orb_false_r.
    apply not_true_iff_false. unfold jsstring_eqb.
    rewrite bool_decide_eq_true. apply Hinj. lia.
  - intros m n Hmn. cbn [with_db drew_uuid uuid_calls] in Hmn.
    apply Hinj. lia.
Qed.

(** The loop, when every image request is answered and the store accepts
    the writes. *)
Lemma generate_panels_run key comic_id userImage :
  GEMINI_API_KEY env = Some key -> key <> [] ->
  forall items imgs i w,
    length imgs = length items ->
    (forall k p,
       items !! k = Some p ->
       exists response,
         provider (length (ai_log w) + k)
           (image_request (visualDescription p) (truthy userImage))
         = Returned response
         /\ imgs !! k = Some (first_inline_image (response_parts response))) ->
    accepts uuidv4 comic_id (server w) ->
    exists created w' rows,
      generate_panels env provider uuidv4 comic_id userImage items i w
      = (Ok created, w')
      /\ http_log w' = http_log w ++ kept_writes comic_id items imgs i
      /\ panels (db (server w')) = panels (db (server w)) ++ rows
      /\ row_fields <$> rows
         = panel_writes (kept_writes comic_id items imgs i)
      /\ comics (db (server w')) = comics (db (server w))
      /\ alerts w' = alerts w
      /\ length (ai_log w') = (length (ai_log w) + length items)%nat.
Proof.
  intros Hkey Hne items.
  induction items as [|p items IH]; intros imgs i w Hlen Himgs Hacc.
  - exists [], w, []. destruct imgs; [|done]. simpl.
    rewrite !app_nil_r, Nat.add_0_r. done.
  - destruct imgs as [|img imgs]; [done|].
    destruct (Himgs 0%nat p eq_refl) as (response & Hp & Himg).
    rewrite Nat.add_0_r in Hp. injection Himg as ->.
    cbn [generate_panels]. unfold mbind at 1. unfold App_bind at 1.
    unfold await at 1.
    rewrite (generatePanelImage_run _ _ _ _ _ _ _ Hkey Hne Hp).
    rewrite truthy_first_inline_image.
    set (log := ai_log w ++ _).
    assert (forall s hl,
              forall k q,
                items !! k = Some q ->
                exists response,
                  provider
                    (length (ai_log {| ai_log := log; server := s;
                                       http_log := hl;
                                       alerts := alerts w |}) + k)
                    (image_request (visualDescription q) (truthy userImage))
                  = Returned response
                  /\ imgs !! k
                     = Some (first_inline_image (response_parts response)))
      as Hnext.
    { intros s hl k q Hq. destruct (Himgs (S k) q Hq) as (r & Hr & Hi).
      exists r. split; [|done]. rewrite <- Hr. f_equal.
      cbn [ai_log]. unfold log. rewrite length_app. simpl. lia. }
    destruct (first_inline_image (response_parts response)) as [url|].
    + destruct (post_panels_accepted comic_id url (caption p) (Z.of_nat i)
                  (server w) Hacc) as (s' & Hpost & Hacc' & Hrows & Hcomics).
      unfold mbind at 1. unfold App_bind at 1. unfold fetch at 1.
      cbn [server ai_log http_log alerts]. rewrite Hpost.
      unfold mbind at 1. unfold App_bind at 1. unfold json at 1.
      cbn [body res_json]. unfold mret at 1. unfold App_ret at 1.
      unfold mbind at 1. unfold App_bind at 1.
      destruct (IH imgs (S i)
                  {| ai_log := log; server := s';
                     http_log := http_log w
                                 ++ [POST_panels comic_id url (caption p)
                                       (Z.of_nat i)];
                     alerts := alerts w |})
        as (created & w' & rows & Hrun & Hlog & Hpanels & Hfields & Hc & Ha
            & Hai); [by injection Hlen | apply Hnext | exact Hacc' |].
      rewrite Hrun. eexists _, w', (_ :: rows).
      split; [reflexivity|].
      cbn [http_log server alerts ai_log] in *.
      split; [by rewrite Hlog, <- app_assoc|].
      split; [by rewrite Hpanels, Hrows, <- app_assoc|].
      split; [rewrite fmap_cons, Hfields; reflexivity|].
      split; [by rewrite Hc|]. split; [done|].
      rewrite Hai. unfold log. rewrite length_app. simpl. lia.
    + destruct (IH imgs (S i)
                  {| ai_log := log; server := server w;
                     http_log := http_log w; alerts := alerts w |})
        as (created & w' & rows & Hrun & Hlog & Hpanels & Hfields & Hc & Ha
            & Hai); [by injection Hlen | apply Hnext | exact Hacc |].
      rewrite Hrun. exists created, w', rows.
      split; [reflexivity|].
      cbn [http_log server alerts ai_log] in *.
      split; [done|]. split; [done|]. split; [done|].
      split; [done|]. split; [done|].
      rewrite Hai. unfold log. rewrite length_app. simpl. lia.
Qed.

Lemma kept_writes_elem comic_id items imgs i req :
  req ∈ kept_writes comic_id items imgs i
  <-> exists k p url,
        items !! k = Some p /\ imgs !! k = Some (Some url)
        /\ req = POST_panels comic_id url (caption p) (Z.of_nat (i + k)).
Proof.
  revert imgs i. induction items as [|p items IH]; intros imgs i.
  - simpl. split; [by intros ?%elem_of_nil|]. by intros (k & q & url & ? & _).
  - destruct imgs as [|img imgs].
    + simpl. split; [by intros ?%elem_of_nil|].
      by intros (k & q & url & _ & ? & _).
    + cbn [kept_writes]. rewrite elem_of_app, IH. split.
      * intros [Hhead|(k & q & url & Hq & Hi & ->)].
        -- destruct img as [url|]; [|by apply elem_of_nil in Hhead].
           apply list_elem_of_singleton in Hhead as ->.
           exists 0%nat, p, url. by rewrite Nat.add_0_r.
        -- exists (S k), q, url. by rewrite Nat.add_succ_r.
      * intros ([|k] & q & url & Hq & Hi & ->); simplify_eq/=.
        -- left. rewrite Nat.add_0_r. by apply list_elem_of_singleton.
        -- right. exists k, q, url. by rewrite Nat.add_succ_r.
Qed.

Lemma kept_writes_from comic_id items imgs i :
  Forall (fun x => (Z.of_nat i <= x.2)%Z)
    (panel_writes (kept_writes comic_id items imgs i)).
Proof.
  revert imgs i. induction items as [|p items IH]; intros imgs i;
    [by constructor|].
  destruct imgs as [|img imgs]; [by constructor|].
  cbn [kept_writes]. unfold panel_writes. rewrite omap_app.
  apply Forall_app. split.
  - destruct img; repeat constructor. simpl. lia.
  - eapply Forall_impl; [apply IH|]. simpl. intros x. lia.
Qed.

Lemma kept_writes_increasing comic_id items imgs i :
  StronglySorted Z.lt
    (snd <$> panel_writes (kept_writes comic_id items imgs i)).
Proof.
  revert imgs i. induction items as [|p items IH]; intros imgs i;
    [by constructor|].
  destruct imgs as [|img imgs]; [by constructor|].
  cbn [kept_writes]. unfold panel_writes. rewrite omap_app.
  destruct img as [url|]; [|apply IH].
  cbn [omap list_omap app fmap list_fmap snd]. constructor; [apply IH|].
  apply Forall_fmap.
  eapply Forall_impl; [apply (kept_writes_from comic_id items imgs (S i))|].
  simpl. intros x. lia.
Qed.

(** The loop sends one panel write per position whose image came back,
    with the caption and the position of that panel, and none for a
    position whose image was absent. *)
Lemma generate_panels_skips key comic_id userImage items imgs i w :
  GEMINI_API_KEY env = Some key -> key <> [] ->
  length imgs = length items ->
  (forall k p,
     items !! k = Some p ->
     exists response,
       provider (length (ai_log w) + k)
         (image_request (visualDescription p) (truthy userImage))
       = Returned response
       /\ imgs !! k = Some (first_inline_image (response_parts response))) ->
  accepts uuidv4 comic_id (server w) ->
  exists created w' writes rows,
    generate_panels env provider uuidv4 comic_id userImage items i w
    = (Ok created, w')
    /\ http_log w' = http_log w ++ writes
    /\ panels (db (server w')) = panels (db (server w)) ++ rows
    /\ row_fields <$> rows = panel_writes writes
    /\ (forall req,
          req ∈ writes
          <-> exists k p url,
                items !! k = Some p /\ imgs !! k = Some (Some url)
                /\ req = POST_panels comic_id url (caption p)
                           (Z.of_nat (i + k)))
    /\ (forall k,
          imgs !! k = Some None ->
          Z.of_nat (i + k) ∉ snd <$> panel_writes writes)
    /\ StronglySorted Z.lt (snd <$> panel_writes writes).
Proof.
  intros Hkey Hne Hlen Himgs Hacc.
  destruct (generate_panels_run key comic_id userImage Hkey Hne
              items imgs i w Hlen Himgs Hacc)
    as (created & w' & rows & Hrun & Hlog & Hpanels & Hfields & _).
  exists created, w', (kept_writes comic_id items imgs i), rows.
  split; [done|]. split; [done|]. split; [done|]. split; [done|].
  split; [apply kept_writes_elem|].
  split; [|apply kept_writes_increasing].
  intros k Habsent
    ([[[c u] cap] z] & Hz & (req & Hreq & Hw)%list_elem_of_omap)%list_elem_of_fmap.
  apply kept_writes_elem in Hreq as (k' & p & url & _ & Hk' & ->).
  simpl in Hz, Hw. simplify_eq.
  assert (k' = k) as -> by lia. congruence.
Qed.


Lemma bind_ok {A B} (m : App A) (k : A -> App B) w a w1 :
  m w = (Ok a, w1) -> (m ≫= k) w = k a w1.
Proof. intros Hm. unfold mbind, App_bind. by rewrite Hm. Qed.

Lemma await_returned {A} (m : AI A) w a log :
  m (ai_log w) = (Returned a, log) ->
  await m w
  = (Ok a, {| ai_log := log; server := server w; http_log := http_log w;
              alerts := alerts w |}).
Proof. intros Hm. unfold await. by rewrite Hm. Qed.

(** Creating the comic on a store where the next identifier is new. *)
Lemma post_comics_accepted title description s :
  has_comic (uuidv4 (uuid_calls s)) (db s) = false ->
  (forall n, (uuid_calls s < n)%nat -> has_panel (uuidv4 n) (db s) = false) ->
  (forall m n, (uuid_calls s <= m < n)%nat -> uuidv4 m <> uuidv4 n) ->
  exists s',
    handle uuidv4 (POST_comics title description) s
    = (res_json (CreatedComic (uuidv4 (uuid_calls s)) title description), s')
    /\ accepts uuidv4 (uuidv4 (uuid_calls s)) s'
    /\ panels (db s') = panels (db s).
Proof.
  intros Hnew Hfresh Hinj. simpl. unfold post_comics, insert_comic.
  cbn [drew_uuid db uuid_calls clock comics_id]. rewrite Hnew.
  eexists. split; [reflexivity|]. split; [|done]. split; [|split].
  - intros _. unfold has_comic. cbn [with_db db comics].
    rewrite existsb_app. simpl. unfold jsstring_eqb.
    rewrite bool_decide_eq_true_2 by done. by rewrite orb_true_r.
  - intros n Hn. cbn [with_db drew_uuid db uuid_calls] in *.
    unfold has_panel. cbn [panels]. apply Hfresh. lia.
  - intros m n Hmn. cbn [with_db drew_uuid uuid_calls] in Hmn.
    apply Hinj. lia.
Qed.

(** C9: in [handleCreateComic], once the story has panels and the comic is
    created, a panel whose image comes back absent is not written and the
    loop goes on: a panel write is sent exactly for the positions whose
    image came back, with the caption of that panel and its position as
    [order_index].  Every write is stored, no failure is notified, and the
    order indexes written are strictly increasing. *)
Theorem absent_image_skipped
    key prompt language userImage w story log title items imgs :
  GEMINI_API_KEY env = Some key -> key <> [] ->
  prompt <> [] ->
  generateComicStory env provider prompt (Some language) (ai_log w)
  = (Returned story, log) ->
  story_panels story = Ok (Some items) -> items <> [] ->
  story_title story = Ok title ->
  length imgs = length items ->
  (forall k p,
     items !! k = Some p ->
     exists response,
       provider (length log + k)
         (image_request (visualDescription p) (truthy userImage))
       = Returned response
       /\ imgs !! k = Some (first_inline_image (response_parts response))) ->
  has_comic (uuidv4 (uuid_calls (server w))) (db (server w)) = false ->
  (forall n, (uuid_calls (server w) < n)%nat ->
             has_panel (uuidv4 n) (db (server w)) = false) ->
  (forall m n, (uuid_calls (server w) <= m < n)%nat ->
               uuidv4 m <> uuidv4 n) ->
  exists w' writes rows,
    handleCreateComic env provider uuidv4 prompt language userImage w
    = (Ok tt, w')
    /\ http_log w' = http_log w ++ POST_comics title prompt :: writes
    /\ alerts w' = alerts w
    /\ panels (db (server w')) = panels (db (server w)) ++ rows
    /\ row_fields <$> rows = panel_writes writes
    /\ (forall req,
          req ∈ writes
          <-> exists k p url,
                items !! k = Some p /\ imgs !! k = Some (Some url)
                /\ req = POST_panels (uuidv4 (uuid_calls (server w))) url
                           (caption p) (Z.of_nat k))
    /\ (forall k,
          imgs !! k = Some None -> Z.of_nat k ∉ snd <$> panel_writes writes)
    /\ StronglySorted Z.lt (snd <$> panel_writes writes).
Proof.
  intros Hkey Hne Hprompt Hstory Hpanels Hitems Htitle Hlen Himgs
    Hnew Hfresh Hinj.
  destruct (post_comics_accepted title prompt (server w) Hnew Hfresh Hinj)
    as (s1 & Hpost & Hacc & Hsame).
  set (id := uuidv4 (uuid_calls (server w))) in *.
  set (w1 := {| ai_log := log; server := s1;
                http_log := http_log w ++ [POST_comics title prompt];
                alerts := alerts w |}).
  destruct (generate_panels_skips key id userImage items imgs 0 w1
              Hkey Hne Hlen Himgs Hacc)
    as (created & w' & writes & rows & Hrun & Hlog & Hrows & Hfields
        & Helem & Habsent & Hsorted).
  exists w', writes, rows.
  split.
  - unfold handleCreateComic. destruct prompt as [|c prompt]; [done|].
    cbn [is_empty]. unfold try_catch.
    rewrite (bind_ok _ _ _ _ _ (await_returned _ _ _ _ Hstory)).
    assert (forall A (r : result A) w0, eval r w0 = (r, w0)) as Heval by done.
    rewrite (bind_ok _ _ _ _ _ (eq_trans (Heval _ _ _)
                                  (f_equal (fun r => (r, _)) Hpanels))).
    destruct items as [|p items]; [done|].
    rewrite (bind_ok _ _ _ _ _ (eq_trans (Heval _ _ _)
                                  (f_equal (fun r => (r, _)) Htitle))).
    assert (fetch uuidv4 (POST_comics title (c :: prompt))
              {| ai_log := log; server := server w; http_log := http_log w;
                 alerts := alerts w |}
            = (Ok (res_json (CreatedComic id title (c :: prompt))), w1))
      as Hfetch
      by (unfold fetch; cbn [server ai_log http_log alerts]; by rewrite Hpost).
    rewrite (bind_ok _ _ _ _ _ Hfetch).
    assert (json (res_json (CreatedComic id title (c :: prompt))) w1
            = (Ok (CreatedComic id title (c :: prompt)), w1)) as Hjson by done.
    rewrite (bind_ok _ _ _ _ _ Hjson).
    rewrite (bind_ok _ _ _ _ _ Hrun). reflexivity.
  - split; [rewrite Hlog; unfold w1; cbn [http_log]; by rewrite <- app_assoc|].
    split.
    { destruct (generate_panels_run key id userImage Hkey Hne items imgs 0 w1
                  Hlen Himgs Hacc)
        as (created' & w'' & rows' & Hrun' & _ & _ & _ & _ & Halerts & _).
      rewrite Hrun in Hrun'. by simplify_eq. }
    split; [rewrite Hrows; unfold w1; cbn [server]; by rewrite Hsame|].
    split; [done|]. split; [done|]. split; [done|done].
Qed.

End WorkflowFacts.

Section WorkflowExamples.
Import Gemini Server App Samples.

(** Both stories returned by [generateComicStory] on a failed generation
    are stopped by the guard. *)
Lemma failed_stories_have_no_panels :
  story_panels untitled_story = Ok (Some [])
  /\ story_panels (JObject []) = Ok None.
Proof. split; vm_compute; reflexivity. Qed.

Lemma no_panels_no_comic_witness :
  handleCreateComic configured (answering (Some (js "oops"))) counter_uuid
    (js "tema") (js "pt-BR") None fresh_world
  = (Ok tt,
     {| ai_log := [story_request (js "tema") (js "pt-BR")];
        server := server fresh_world; http_log := http_log fresh_world;
        alerts := alerts fresh_world ++ [failure_notice] |}).
Proof.
  apply (no_panels_no_comic configured (answering (Some (js "oops")))
           counter_uuid (js "tema") (js "pt-BR") None fresh_world
           untitled_story).
  - vm_compute. discriminate.
  - vm_compute. reflexivity.
  - right. vm_compute. reflexivity.
Defined.

Lemma absent_image_skipped_witness :
  exists w' writes rows,
    handleCreateComic configured studio counter_uuid (js "tema") (js "pt-BR")
      None fresh_world
    = (Ok tt, w')
    /\ http_log w'
       = http_log fresh_world ++ POST_comics (js "T") (js "tema") :: writes
    /\ alerts w' = alerts fresh_world
    /\ panels (db (server w')) = panels (db (server fresh_world)) ++ rows
    /\ row_fields <$> rows = panel_writes writes
    /\ (forall req,
          req ∈ writes
          <-> exists k p url,
                three_panels !! k = Some p
                /\ [Some drawn; None; Some drawn] !! k = Some (Some url)
                /\ req = POST_panels
                           (counter_uuid (uuid_calls (server fresh_world)))
                           url (caption p) (Z.of_nat k))
    /\ (forall k,
          [Some drawn; None; Some drawn] !! k = Some None ->
          Z.of_nat k ∉ snd <$> panel_writes writes)
    /\ StronglySorted Z.lt (snd <$> panel_writes writes).
Proof.
  apply (absent_image_skipped configured studio counter_uuid
           (js "key") (js "tema") (js "pt-BR") None fresh_world
           (JObject [ (js "title", JString (js "T"));
                      (js "panels",
                       JArray
                         [ JObject [ (js "visualDescription", JString (js "d0"));
                                     (js "caption", JString (js "c0")) ];
                           JObject [ (js "visualDescription", JString (js "d1"));
                                     (js "caption", JString (js "c1")) ];
                           JObject [ (js "visualDescription", JString (js "d2"));
                                     (js "caption", JString (js "c2")) ] ]) ])
           [story_request (js "tema") (js "pt-BR")]
           (js "T") three_panels [Some drawn; None; Some drawn]).
  - reflexivity.
  - vm_compute. discriminate.
  - vm_compute. discriminate.
  - vm_compute. reflexivity.
  - vm_compute. reflexivity.
  - vm_compute. discriminate.
  - vm_compute. reflexivity.
  - reflexivity.
  - intros [|[|[|k]]] p Hp; vm_compute in Hp; simplify_eq;
      eexists; (split; [reflexivity|]); vm_compute; reflexivity.
  - reflexivity.
  - intros n _. reflexivity.
  - intros m n Hmn [= Heq]. lia.
Defined.

(** The whole workflow on a three-panel story whose second image is
    absent: the comic is created, the panels at positions 0 and 2 are
    written with those order indexes, and no failure is notified. *)
Example handleCreateComic_gap :
  let r := handleCreateComic configured studio counter_uuid (js "tema")
             (js "pt-BR") None fresh_world in
  r.1 = Ok tt
  /\ http_log r.2
     = [ POST_comics (js "T") (js "tema");
         POST_panels (counter_uuid 0) drawn (js "c0") 0;
         POST_panels (counter_uuid 0) drawn (js "c2") 2 ]
  /\ panels_order_index <$> panels (db (server r.2)) = [0%Z; 2%Z]
  /\ alerts r.2 = [].
Proof. vm_compute. repeat split; reflexivity. Qed.

(** Without a credential the workflow stops at the first call. *)
Example handleCreateComic_unconfigured :
  handleCreateComic unconfigured studio counter_uuid (js "tema")
    (js "pt-BR") None fresh_world
  = (Ok tt,
     {| ai_log := []; server := server fresh_world; http_log := [];
        alerts := [failure_notice] |}).
Proof. vm_compute. reflexivity. Qed.

End WorkflowExamples.

(** * Further properties of the store *)
Section StoreInvariants.
Import Server Samples.

Variable uuidv4 : nat -> jsstring.

#[local] Instance created_at_ge_total : Total created_at_ge.
Proof. intros c d. unfold created_at_ge. lia. Qed.

#[local] Instance created_at_ge_trans : Transitive created_at_ge.
Proof. intros c d e. unfold created_at_ge. lia. Qed.

Lemma has_comic_true id d :
  has_comic id d = true <-> exists c, c ∈ comics d /\ comics_id c = id.
Proof.
  unfold has_comic. rewrite existsb_exists. split.
  - intros (c & Hin & Hc). exists c. split; [by apply list_elem_of_In|].
    by apply bool_decide_eq_true in Hc.
  - intros (c & Hin & Hc). exists c. split; [by apply list_elem_of_In|].
    by apply bool_decide_eq_true.
Qed.

Lemma has_comic_false id d :
  has_comic id d = false <-> id ∉ comics_id <$> comics d.
Proof.
  rewrite <- not_true_iff_false, has_comic_true, list_elem_of_fmap.
  split; intros H (c & ? & ?); apply H; exists c; by split.
Qed.

Lemma has_panel_false id d :
  has_panel id d = false <-> id ∉ panels_id <$> panels d.
Proof.
  rewrite <- not_true_iff_false. unfold has_panel.
  rewrite existsb_exists, list_elem_of_fmap. split.
  - intros H (p & -> & Hin). apply H. exists p.
    split; [by apply list_elem_of_In|]. by apply bool_decide_eq_true.
  - intros H (p & Hin & Hp). apply H. exists p.
    split; [by apply bool_decide_eq_true in Hp|by apply list_elem_of_In].
Qed.

Lemma NoDup_snoc_fresh {A} (l : list A) x : NoDup l -> x ∉ l -> NoDup (l ++ [x]).
Proof.
  intros Hl Hx. apply NoDup_app. split; [done|].
  split; [|apply NoDup_singleton].
  intros y Hy ->%list_elem_of_singleton. by apply Hx.
Qed.

Lemma find_app_absent {A} (f : A -> bool) (l k : list A) :
  (forall x, x ∈ l -> f x = false) -> find f (l ++ k) = find f k.
Proof.
  induction l as [|x l IH]; intros Hl; [done|]. simpl.
  rewrite (Hl x) by left. apply IH. intros y Hy. apply Hl. by right.
Qed.

Lemma list_filter_nil_absent {A} (P : A -> Prop)
    `{!forall x, Decision (P x)} (l : list A) :
  (forall x, x ∈ l -> ~ P x) -> filter P l = [].
Proof.
  induction l as [|x l IH]; intros Hl; [done|].
  rewrite filter_cons, decide_False by (apply Hl; left).
  apply IH. intros y Hy. apply Hl. by right.
Qed.

Lemma handle_keeps_foreign_keys req s :
  foreign_keys (db (handle uuidv4 req s).2) = foreign_keys (db s).
Proof.
  destruct req as [|title description|id|id|id url cap i]; simpl.
  - done.
  - unfold post_comics, insert_comic. simpl. by destruct (has_comic _ _).
  - unfold get_comic. by destruct (select_comic _ _).
  - by rewrite delete_comic_route_run.
  - unfold post_panels, insert_panel. simpl.
    destruct (has_panel _ _); [done|]. by destruct (_ && _).
Qed.

(** The identifiers of the stored comics are pairwise distinct, and so are
    those of the stored panels, in every state the server can reach, even
    if [uuidv4] repeats itself: a repeated identifier is refused by the
    primary key. *)
Theorem primary_keys_distinct s :
  reachable uuidv4 s ->
  NoDup (comics_id <$> comics (db s)) /\ NoDup (panels_id <$> panels (db s)).
Proof.
  induction 1 as [fk now|req s Hs [IHc IHp]|s later Hs IH Hle];
    [split; constructor| |done].
  destruct req as [|title description|id|id|id url cap i]; simpl.
  - done.
  - unfold post_comics, insert_comic.
    cbn [drew_uuid db uuid_calls clock comics_id].
    destruct (has_comic _ _) eqn:E; [done|].
    cbn [with_db db comics panels snd]. split; [|done].
    rewrite fmap_app. apply NoDup_snoc_fresh; [done|].
    by apply has_comic_false.
  - unfold get_comic. by destruct (select_comic _ _).
  - rewrite delete_comic_route_run. cbn [with_db db comics panels snd].
    split.
    + eapply sublist_NoDup; [exact IHc|]. apply fmap_sublist, sublist_filter.
    + eapply sublist_NoDup; [exact IHp|]. apply fmap_sublist, sublist_filter.
  - unfold post_panels, insert_panel.
    cbn [drew_uuid db uuid_calls clock panels_id panels_comic_id].
    destruct (has_panel _ _) eqn:E; [done|].
    destruct (_ && _); [done|].
    cbn [with_db db comics panels snd]. split; [done|].
    rewrite fmap_app. apply NoDup_snoc_fresh; [done|].
    by apply has_panel_false.
Qed.

(** With the foreign key enforced, every stored panel belongs to a stored
    comic, in every state the server can reach: no route leaves an orphan
    panel behind. *)
Theorem panels_reference_comics s :
  reachable uuidv4 s -> foreign_keys (db s) = true ->
  forall p, p ∈ panels (db s) ->
            exists c, c ∈ comics (db s) /\ comics_id c = panels_comic_id p.
Proof.
  induction 1 as [fk now|req s Hs IH|s later Hs IH Hle]; [| |done].
  - intros _ p Hp. by apply elem_of_nil in Hp.
  - rewrite handle_keeps_foreign_keys. intros Hfk. specialize (IH Hfk).
    destruct req as [|title description|id|id|id url cap i]; simpl.
    + done.
    + unfold post_comics, insert_comic.
      cbn [drew_uuid db uuid_calls clock comics_id].
      destruct (has_comic _ _); [done|].
      cbn [with_db db comics panels snd]. intros p Hp.
      destruct (IH p Hp) as (c & Hc & Hid). exists c.
      split; [|done]. apply elem_of_app. by left.
    + unfold get_comic. by destruct (select_comic _ _).
    + rewrite delete_comic_route_run. cbn [with_db db comics panels snd].
      intros p [Hne Hp]%list_elem_of_filter.
      destruct (IH p Hp) as (c & Hc & Hid). exists c. split; [|done].
      apply list_elem_of_filter. split; [congruence|done].
    + unfold post_panels, insert_panel.
      cbn [drew_uuid db uuid_calls clock panels_id panels_comic_id].
      destruct (has_panel _ _); [done|]. rewrite Hfk. cbn [andb].
      destruct (has_comic id (db s)) eqn:E; cbn [negb]; [|done].
      cbn [with_db db comics panels snd].
      intros p [Hp| ->%list_elem_of_singleton]%elem_of_app; [by apply IH|].
      by apply has_comic_true in E.
Qed.

(** With the foreign key enforced, a panel cannot be added to a comic that
    has just been deleted (or to any missing comic): the route answers
    with the error page and the rows are left as they were. *)
Theorem no_panel_after_delete id url cap i s :
  foreign_keys (db s) = true ->
  let s1 := (handle uuidv4 (DELETE_comic id) s).2 in
  let r := handle uuidv4 (POST_panels id url cap i) s1 in
  r.1 = uncaught
  /\ comics (db r.2) = comics (db s1) /\ panels (db r.2) = panels (db s1).
Proof.
  intros Hfk. cbn zeta. cbn [handle]. rewrite delete_comic_route_run.
  cbn [snd]. unfold post_panels, insert_panel.
  cbn [drew_uuid with_db db uuid_calls clock panels_id panels_comic_id
         foreign_keys].
  destruct (has_panel _ _); [done|]. rewrite Hfk. cbn [andb].
  assert (has_comic id
            {| comics := filter (fun c => comics_id c <> id) (comics (db s));
               panels := filter (fun p => panels_comic_id p <> id)
                           (panels (db s));
               foreign_keys := true |} = false) as ->; [|done].
  apply has_comic_false. cbn [comics].
  intros (c & Hid & [Hne _]%list_elem_of_filter)%list_elem_of_fmap.
  by apply Hne.
Qed.

(** [GET /api/comics] answers with all stored comics and only them, the
    most recently created first, and changes nothing. *)
Theorem get_comics_newest_first s :
  exists rows,
    handle uuidv4 GET_comics s = (res_json (ComicList rows), s)
    /\ rows ≡ₚ comics (db s)
    /\ StronglySorted (fun a b => (b <= a)%N) (comics_created_at <$> rows).
Proof.
  exists (select_comics (db s)). split; [done|].
  split; [apply merge_sort_Permutation|].
  apply (StronglySorted_fmap _ created_at_ge); [done|].
  apply (StronglySorted_merge_sort _).
Qed.

Lemma find_filter {A} (f : A -> bool) (P : A -> Prop)
    `{!forall x, Decision (P x)} (l : list A) :
  (forall x, f x = true -> P x) -> find f (filter P l) = find f l.
Proof.
  intros HfP. induction l as [|x l IH]; [done|].
  rewrite filter_cons. simpl. destruct (decide (P x)) as [HP|HP]; simpl.
  - by rewrite IH.
  - destruct (f x) eqn:E; [by apply HfP in E|done].
Qed.

(** Deleting one comic does not disturb the others: [GET] of any other
    identifier answers after the deletion what it answered before. *)
Theorem delete_keeps_others id other s :
  other <> id ->
  (handle uuidv4 (GET_comic other) (handle uuidv4 (DELETE_comic id) s).2).1
  = (handle uuidv4 (GET_comic other) s).1.
Proof.
  intros Hne. cbn [handle]. rewrite delete_comic_route_run. cbn [snd].
  unfold get_comic, select_comic, select_panels. cbn [with_db db comics panels].
  rewrite find_filter.
  2:{ intros c Hc%jsstring_eqb_true. congruence. }
  rewrite list_filter_filter.
  rewrite (list_filter_iff
             (fun p => panels_comic_id p = other /\ panels_comic_id p <> id)
             (fun p => panels_comic_id p = other))
    by (intros p; split; [tauto | intros Hp; split; congruence]).
  by destruct (find _ _).
Qed.

(** Round trip through the three routes, for well-formed text (the store
    keeps text as UTF-8, which has no place for a lone surrogate): on a
    store where the next two identifiers are new and no panel refers to
    the first of them, creating a comic, adding one panel to it and
    reading it back yields that comic with exactly that panel. *)
Theorem create_then_read title description url cap i s :
  let id := uuidv4 (uuid_calls s) in
  let pid := uuidv4 (S (uuid_calls s)) in
  isWellFormed title = true -> isWellFormed description = true ->
  isWellFormed url = true -> isWellFormed cap = true ->
  has_comic id (db s) = false ->
  has_panel pid (db s) = false ->
  references id (db s) = false ->
  let s2 := serve uuidv4
              [POST_comics title description; POST_panels id url cap i] s in
  (handle uuidv4 (GET_comic id) s2).1
  = res_json
      (ComicWithPanels
         {| comics_id := id; comics_title := title;
            comics_description := description;
            comics_created_at := clock s |}
         [ {| panels_id := pid; panels_comic_id := id;
              panels_image_url := url; panels_caption := cap;
              panels_order_index := i |} ]).
Proof.
  intros id pid _ _ _ _ Hnew Hpid Hrefs. cbn zeta. unfold serve.
  cbn [fold_left handle].
  unfold post_comics, insert_comic.
  cbn [drew_uuid db uuid_calls clock comics_id]. fold id. rewrite Hnew.
  cbn [snd]. unfold post_panels, insert_panel.
  cbn [drew_uuid with_db db uuid_calls clock panels_id panels_comic_id
         foreign_keys]. fold pid.
  assert (has_panel pid
            {| comics := comics (db s)
                         ++ [ {| comics_id := id; comics_title := title;
                                 comics_description := description;
                                 comics_created_at := clock s |} ];
               panels := panels (db s);
               foreign_keys := foreign_keys (db s) |} = false) as -> by done.
  assert (has_comic id
            {| comics := comics (db s)
                         ++ [ {| comics_id := id; comics_title := title;
                                 comics_description := description;
                                 comics_created_at := clock s |} ];
               panels := panels (db s);
               foreign_keys := foreign_keys (db s) |} = true) as ->.
  { unfold has_comic. cbn [comics]. rewrite existsb_app. simpl.
    unfold jsstring_eqb. rewrite bool_decide_eq_true_2 by done.
    by rewrite orb_true_r. }
  rewrite andb_false_r. cbn [snd].
  unfold get_comic, select_comic, select_panels. cbn [with_db db comics panels].
  rewrite find_app_absent.
  2:{ intros c Hc. apply not_true_iff_false. rewrite jsstring_eqb_true.
      intros Hid. apply has_comic_false in Hnew. apply Hnew.
      apply list_elem_of_fmap. by exists c. }
  cbn [find comics_id]. unfold jsstring_eqb at 1.
  rewrite bool_decide_eq_true_2 by done.
  rewrite filter_app.
  assert (filter (fun p => panels_comic_id p = id) (panels (db s)) = []) as ->.
  { apply list_filter_nil_absent. intros p Hp Hid.
    apply not_true_iff_false in Hrefs. apply Hrefs.
    unfold references. apply existsb_exists. exists p.
    split; [by apply list_elem_of_In | by apply jsstring_eqb_true]. }
  rewrite filter_cons, decide_True by done. reflexivity.
Qed.

End StoreInvariants.

(** * Further properties of the AI client *)
Section ClientFacts.
Import Gemini Samples.

Variable env : Env.
Variable provider : nat -> Request -> outcome Response.

(** With a configured key, each function of the service sends exactly one
    request to the provider per call, whatever the provider answers and
    whether or not the answer can be used. *)
Theorem one_request_per_call key log :
  GEMINI_API_KEY env = Some key -> key <> [] ->
  (forall prompt language,
     (generateComicStory env provider prompt language log).2
     = log ++ [story_request prompt (default (js "pt-BR") language)])
  /\ (forall description ref,
        (generatePanelImage env provider description ref log).2
        = log ++ [image_request description ref])
  /\ (forall txt targetLanguage,
        (translateText env provider txt targetLanguage log).2
        = log ++ [translate_request txt targetLanguage]).
Proof.
  intros Hkey Hne. repeat split; intros;
    unfold generateComicStory, generatePanelImage, translateText,
      mbind, AI_bind, bind;
    rewrite (getAI_configured _ _ _ Hkey Hne); unfold generateContent;
    destruct (provider _ _) as [response|e]; try done.
  unfold try_catch, parse_story. by destruct (JSON_parse _).
Qed.

(** A rejection by the provider is thrown on by all three functions; in
    particular [generateComicStory] does not turn it into the untitled
    story, since the call is awaited outside its [try] block. *)
Theorem provider_rejection_propagates key log e :
  GEMINI_API_KEY env = Some key -> key <> [] ->
  (forall prompt language,
     provider (length log)
       (story_request prompt (default (js "pt-BR") language)) = Threw e ->
     generateComicStory env provider prompt language log
     = (Threw e,
        log ++ [story_request prompt (default (js "pt-BR") language)]))
  /\ (forall description ref,
        provider (length log) (image_request description ref) = Threw e ->
        generatePanelImage env provider description ref log
        = (Threw e, log ++ [image_request description ref]))
  /\ (forall txt targetLanguage,
        provider (length log) (translate_request txt targetLanguage)
        = Threw e ->
        translateText env provider txt targetLanguage log
        = (Threw e, log ++ [translate_request txt targetLanguage])).
Proof.
  intros Hkey Hne. repeat split; intros * Hp;
    unfold generateComicStory, generatePanelImage, translateText,
      mbind, AI_bind, bind;
    rewrite (getAI_configured _ _ _ Hkey Hne); unfold generateContent;
    by rewrite Hp.
Qed.

(** [translateText] hands back the text of the answer as it is, fences
    and surrounding white space included, or [undefined] when the answer
    has no text. *)
Lemma translateText_run key log txt targetLanguage response :
  GEMINI_API_KEY env = Some key -> key <> [] ->
  provider (length log) (translate_request txt targetLanguage)
  = Returned response ->
  translateText env provider txt targetLanguage log
  = (Returned (response_text response),
     log ++ [translate_request txt targetLanguage]).
Proof.
  intros Hkey Hne Hp. unfold translateText, mbind, AI_bind, bind.
  rewrite (getAI_configured _ _ _ Hkey Hne). unfold generateContent.
  by rewrite Hp.
Qed.

Lemma data_uri_prefix_units :
  js "data:image/png;base64,"
  = [100; 97; 116; 97; 58; 105; 109; 97; 103; 101; 47; 112; 110; 103; 59;
     98; 97; 115; 101; 54; 52; 44].
Proof. vm_compute. reflexivity. Qed.

Lemma first_inline_image_prefix ps url :
  first_inline_image ps = Some url ->
  exists payload, url = js "data:image/png;base64," ++ payload.
Proof.
  induction ps as [|p ps IH]; simpl; [done|].
  destruct (inlineData p) as [d|]; [|done].
  intros [= <-]. by eexists.
Qed.

(** Whatever the provider answers, an image returned by
    [generatePanelImage] is a non-empty string that starts with
    "data:image/png;base64,": the media type declared by the part is not
    used, and the caller's truthiness test never discards an image. *)
Theorem generatePanelImage_png_uri description ref log url log' :
  generatePanelImage env provider description ref log
  = (Returned (Some url), log') ->
  (exists payload, url = js "data:image/png;base64," ++ payload)
  /\ truthy (Some url) = Some url.
Proof.
  unfold generatePanelImage, mbind, AI_bind, bind, getAI.
  destruct (GEMINI_API_KEY env) as [[|c r]|]; try done.
  unfold ret at 1. unfold generateContent.
  destruct (provider _ _) as [response|e]; [|done].
  unfold ret. intros [= Hurl _].
  destruct (first_inline_image_prefix _ _ Hurl) as [payload ->].
  split; [by eexists|]. rewrite data_uri_prefix_units. reflexivity.
Qed.

End ClientFacts.

(** * Cleaning and parsing the story text *)
Section CleaningFacts.
Import Gemini Samples.

Lemma js_space_cases c :
  is_js_space c = true ->
  c = 9 \/ c = 10 \/ c = 11 \/ c = 12 \/ c = 13 \/ c = 32 \/ c = 160
  \/ c = 5760 \/ (8192 <= c <= 8202) \/ c = 8232 \/ c = 8233 \/ c = 8239
  \/ c = 8287 \/ c = 12288 \/ c = 65279.
Proof.
  unfold is_js_space.
  rewrite !orb_true_iff, andb_true_iff, !N.eqb_eq, !N.leb_le. tauto.
Qed.

Lemma json_ws_cases c :
  is_json_ws c = false -> c <> 32 /\ c <> 9 /\ c <> 10 /\ c <> 13.
Proof.
  unfold is_json_ws. rewrite !orb_false_iff, !N.eqb_neq. tauto.
Qed.

(** No value, number or literal starts or continues with a space. *)
Ltac not_a_space c Hc :=
  repeat match goal with
         | |- context [N.eqb c ?k] =>
           destruct (N.eqb_spec c k); [exfalso; lia|]
         | |- context [N.leb ?a ?b] => destruct (N.leb_spec a b)
         | |- context [N.ltb ?a ?b] => destruct (N.ltb_spec a b)
         end;
  try reflexivity; try (exfalso; lia).

Lemma start_value_space stack c :
  is_js_space c = true -> is_json_ws c = false -> start_value stack c = None.
Proof.
  intros Hc%js_space_cases Hw%json_ws_cases.
  unfold start_value, is_digit. not_a_space c Hc.
Qed.

Lemma num_step_space ns c :
  is_js_space c = true -> num_step ns c = None.
Proof.
  intros Hc%js_space_cases.
  destruct ns; unfold num_step, is_digit; cbn [orb andb]; not_a_space c Hc.
Qed.

Lemma json_ws_true_cases c :
  is_json_ws c = true -> c = 32 \/ c = 9 \/ c = 10 \/ c = 13.
Proof.
  unfold is_json_ws. rewrite !orb_true_iff, !N.eqb_eq. tauto.
Qed.

Lemma json_ws_is_space c : is_json_ws c = true -> is_js_space c = true.
Proof.
  intros [->|[->|[->| ->]]]%json_ws_true_cases; reflexivity.
Qed.

Lemma close_value_space v0 stack c st' v :
  is_js_space c = true ->
  close_value v0 stack c = Some st' -> finish st' = Some v ->
  stack = [] /\ v0 = v.
Proof.
  intros Hc%js_space_cases. unfold close_value.
  destruct (is_json_ws c).
  - intros [= <-]. destruct stack; [|done]. by intros [= ->].
  - destruct stack as [|[vs|fs key] stack]; [done| |]; not_a_space c Hc;
      done.
Qed.

(** After a complete text, a trailing space changes nothing: if the parser
    accepts with the space, it accepted without it. *)
Lemma step_space_finish st c st' v :
  lit_ok st -> is_js_space c = true ->
  step st c = Some st' -> finish st' = Some v -> finish st = Some v.
Proof.
  intros Hok Hc. pose proof (js_space_cases c Hc) as Hcases.
  destruct st as [m stack]. destruct m; cbn [step]; unfold hex_val, is_digit.
  - destruct (is_json_ws c) eqn:Hws; [by intros [= <-]|].
    destruct may_close; cbn [andb].
    + not_a_space c Hcases. by rewrite start_value_space.
    + by rewrite start_value_space.
  - destruct (is_json_ws c) eqn:Hws; [by intros [= <-]|].
    destruct may_close; cbn [andb]; not_a_space c Hcases; done.
  - destruct (is_json_ws c) eqn:Hws; [by intros [= <-]|].
    not_a_space c Hcases; done.
  - intros Hclose Hfin.
    by destruct (close_value_space _ _ _ _ _ Hc Hclose Hfin) as [-> ->].
  - not_a_space c Hcases; try done; by intros [= <-].
  - not_a_space c Hcases; done.
  - not_a_space c Hcases; done.
  - rewrite num_step_space by done.
    destruct (num_final st) eqn:Hfinal; [|done].
    intros Hclose Hfin.
    destruct (close_value_space _ _ _ _ _ Hc Hclose Hfin) as [-> <-].
    cbn [finish]. by rewrite Hfinal.
  - destruct rest as [|x rest]; [done|].
    unfold lit_ok in Hok. cbn [fst] in Hok.
    apply Forall_cons in Hok as [Hx _].
    destruct (N.eqb_spec c x) as [->|]; [congruence|done].
Qed.

Lemma step_lit_ok st c st' : lit_ok st -> step st c = Some st' -> lit_ok st'.
Proof.
  destruct st as [m stack]. unfold lit_ok. cbn [fst].
  destruct m; cbn [step]; intros Hok Hstep;
    try (unfold close_value in Hstep);
    repeat (match type of Hstep with
            | context [match ?x with _ => _ end] => destruct x eqn:?
            end; try discriminate);
    try (injection Hstep as <-; cbn [fst]; try done).
  - unfold start_value in Hstep.
    repeat (match type of Hstep with
            | context [match ?x with _ => _ end] => destruct x eqn:?
            end; try discriminate);
      injection Hstep as <-; cbn [fst]; try done;
      apply (bool_decide_unpack _); vm_compute; exact I.
  - by destruct r.
  - by apply Forall_cons in Hok as [_ Hok].
Qed.

Lemma run_lit_ok s st st' : lit_ok st -> run st s = Some st' -> lit_ok st'.
Proof.
  revert st. induction s as [|c s IH]; intros st Hok; simpl.
  - by intros [= <-].
  - destruct (step st c) as [st1|] eqn:Hstep; [|done].
    apply IH. by eapply step_lit_ok.
Qed.

Lemma run_app s1 s2 st :
  run st (s1 ++ s2)
  = match run st s1 with Some st1 => run st1 s2 | None => None end.
Proof.
  revert st. induction s1 as [|c s1 IH]; intros st; simpl; [done|].
  by destruct (step st c).
Qed.

Lemma JSON_parse_leading_space c s v :
  is_js_space c = true -> JSON_parse (c :: s) = Some v -> JSON_parse s = Some v.
Proof.
  intros Hc. unfold JSON_parse. cbn [run step].
  destruct (is_json_ws c) eqn:Hws; [done|].
  cbn [andb]. by rewrite start_value_space.
Qed.

Lemma JSON_parse_trailing_space c s v :
  is_js_space c = true ->
  JSON_parse (s ++ [c]) = Some v -> JSON_parse s = Some v.
Proof.
  intros Hc. unfold JSON_parse. rewrite run_app.
  destruct (run (WantValue false, []) s) as [st|] eqn:Hrun; [|done].
  cbn [run]. destruct (step st c) as [st'|] eqn:Hstep; [|done].
  apply (step_space_finish st c st' v); [|done|done].
  by apply (run_lit_ok s (WantValue false, [])).
Qed.

Lemma JSON_parse_trimStart s v :
  JSON_parse s = Some v -> JSON_parse (trimStart s) = Some v.
Proof.
  induction s as [|c s IH]; [done|]. simpl.
  destruct (is_js_space c) eqn:Hc; [|done].
  intros Hp. by apply IH, (JSON_parse_leading_space c).
Qed.

Lemma trimEnd_keep s c :
  is_js_space c = false -> trimEnd (s ++ [c]) = s ++ [c].
Proof.
  intros Hc. unfold trimEnd. rewrite rev_app_distr. simpl. rewrite Hc.
  simpl. by rewrite rev_involutive.
Qed.

Lemma JSON_parse_trimEnd s v :
  JSON_parse s = Some v -> JSON_parse (trimEnd s) = Some v.
Proof.
  induction s as [|c s IH] using rev_ind; [done|].
  destruct (is_js_space c) eqn:Hc.
  - rewrite trimEnd_snoc by done. intros Hp.
    by apply IH, (JSON_parse_trailing_space c).
  - by rewrite trimEnd_keep.
Qed.

(** Trimming never spoils a text that [JSON.parse] accepts. *)
Lemma JSON_parse_trim s v :
  JSON_parse s = Some v -> JSON_parse (trim s) = Some v.
Proof. intros Hp. by apply JSON_parse_trimEnd, JSON_parse_trimStart. Qed.


Lemma starts_with_fence_json s :
  starts_with fence_json s = true -> starts_with fence s = true.
Proof.
  rewrite fence_json_units, fence_units.
  destruct s as [|a [|b [|c s]]]; cbn [starts_with]; try done;
    repeat match goal with |- context [96 =? ?x] => destruct (96 =? x) end;
    done.
Qed.

Lemma first_match_fences_none s :
  first_match fences s = None <-> starts_with fence s = false.
Proof.
  unfold fences. cbn [first_match]. split.
  - destruct (starts_with fence_json s); [done|].
    by destruct (starts_with fence s).
  - intros Hf. destruct (starts_with fence_json s) eqn:E.
    + apply starts_with_fence_json in E. congruence.
    + by rewrite Hf.
Qed.

(** Text without a fence marker is left as it is. *)
Lemma remove_all_fence_free t :
  occurs fence t = false -> remove_all fences t = t.
Proof.
  unfold remove_all. induction t as [|c t IH]; [done|].
  cbn [occurs]. intros [Hhere Hrest]%orb_false_elim.
  rewrite remove_from_keep by by apply first_match_fences_none.
  by rewrite IH.
Qed.

Lemma kept_head_not_backtick s :
  starts_with [96] s = false ->
  starts_with [96] (remove_from fences 0 s) = false.
Proof.
  destruct s as [|c s]; [done|]. cbn [starts_with].
  rewrite andb_true_r. intros Hc.
  rewrite remove_from_keep.
  - cbn [starts_with]. by rewrite Hc.
  - apply first_match_fences_none. rewrite fence_units.
    cbn [starts_with]. by rewrite Hc.
Qed.

Lemma kept_after_backtick r :
  starts_with fence (96 :: r) = false ->
  starts_with [96; 96] (remove_from fences 0 r) = false.
Proof.
  rewrite fence_units. cbn [starts_with]. rewrite N.eqb_refl. cbn [andb].
  destruct r as [|x r]; [done|]. cbn [starts_with].
  destruct (N.eqb_spec 96 x) as [<-|Hx]; cbn [andb].
  - intros Hr.
    assert (starts_with [96] r = false) as Hr'
      by (destruct r; [done|]; cbn [starts_with] in *;
          by rewrite andb_true_r in *).
    rewrite remove_from_keep.
    + cbn [starts_with]. rewrite N.eqb_refl. cbn [andb].
      by apply kept_head_not_backtick.
    + apply first_match_fences_none. rewrite fence_units.
      cbn [starts_with]. rewrite N.eqb_refl. cbn [andb].
      destruct r as [|y r]; [done|]. cbn [starts_with] in *.
      rewrite andb_true_r in Hr'. by rewrite Hr'.
  - intros _.
    assert (starts_with [96] (remove_from fences 0 (x :: r)) = false) as H.
    { apply kept_head_not_backtick. cbn [starts_with].
      apply N.eqb_neq in Hx. by rewrite Hx. }
    destruct (remove_from fences 0 (x :: r)) as [|y o]; [done|].
    cbn [starts_with] in *. rewrite andb_true_r in H. by rewrite H.
Qed.

Lemma remove_from_fence_free k s :
  occurs fence (remove_from fences k s) = false.
Proof.
  revert k. induction s as [|c s IH]; intros k;
    [by rewrite fence_units|].
  destruct k as [|k]; [|apply IH]. cbn [remove_from].
  destruct (first_match fences (c :: s)) as [len|] eqn:Hm; [apply IH|].
  cbn [occurs]. rewrite IH, orb_false_r.
  apply first_match_fences_none in Hm.
  destruct (N.eqb_spec 96 c) as [<-|Hc].
  - apply kept_after_backtick in Hm. rewrite fence_units.
    cbn [starts_with]. rewrite N.eqb_refl. exact Hm.
  - rewrite fence_units. cbn [starts_with].
    apply N.eqb_neq in Hc. by rewrite Hc.
Qed.

Lemma starts_with_app_l p a b :
  starts_with p a = true -> starts_with p (a ++ b) = true.
Proof.
  revert a. induction p as [|x p IH]; intros [|y a]; simpl; try done.
  intros [-> Hp]%andb_prop. by rewrite IH.
Qed.

Lemma occurs_app p a b :
  occurs p (a ++ b) = false -> occurs p a = false /\ occurs p b = false.
Proof.
  induction a as [|x a IH]; simpl.
  - intros Hb. split; [|done].
    destruct p; [by destruct b|done].
  - intros [Hhere Hrest]%orb_false_elim.
    destruct (IH Hrest) as [Ha Hb]. split; [|done].
    rewrite Ha, orb_false_r.
    destruct (starts_with p (x :: a)) eqn:E; [|done].
    apply (starts_with_app_l _ _ b) in E. simpl in E. congruence.
Qed.

Lemma trimStart_suffix s : exists pre, s = pre ++ trimStart s.
Proof.
  induction s as [|c s [pre IH]]; [by exists []|]. simpl.
  destruct (is_js_space c); [|by exists []].
  exists (c :: pre). simpl. by rewrite <- IH.
Qed.

Lemma trimEnd_prefix s : exists suf, s = trimEnd s ++ suf.
Proof.
  unfold trimEnd. destruct (trimStart_suffix (rev s)) as [pre Hpre].
  exists (rev pre). rewrite <- rev_app_distr, <- Hpre.
  by rewrite rev_involutive.
Qed.

Lemma occurs_trim p s : occurs p s = false -> occurs p (trim s) = false.
Proof.
  intros Hs. unfold trim.
  destruct (trimStart_suffix s) as [pre Hpre]. rewrite Hpre in Hs.
  apply occurs_app in Hs as [_ Hs].
  destruct (trimEnd_prefix (trimStart s)) as [suf Hsuf]. rewrite Hsuf in Hs.
  by apply occurs_app in Hs as [Hs _].
Qed.

(** Whatever the response text, no fence marker is left in the text handed
    to [JSON.parse]: removing the matches cannot bring three backticks
    together. *)
Theorem cleaned_text_fence_free raw :
  occurs fence (trim (remove_all fences raw)) = false.
Proof. apply occurs_trim, remove_from_fence_free. Qed.

(** For a JSON text that holds no fence marker, [generateComicStory]
    returns exactly what [JSON.parse] makes of that text, whether the
    provider sends it bare, surrounded by white space or between fence
    lines. *)
Theorem generateComicStory_parses_payload
    env key provider prompt language log response raw t v :
  GEMINI_API_KEY env = Some key -> key <> [] ->
  provider (length log)
    (story_request prompt (default (js "pt-BR") language))
  = Returned response ->
  response_text response = Some raw ->
  raw = t \/ (exists opener, opener ∈ fences /\ raw = fenced opener t) ->
  JSON_parse t = Some v ->
  occurs fence t = false ->
  generateComicStory env provider prompt language log
  = (Returned v,
     log ++ [story_request prompt (default (js "pt-BR") language)]).
Proof.
  intros Hkey Hne Hp Hraw Hshape Ht Hfree.
  assert (t <> []) as Hnil by (intros ->; by rewrite JSON_parse_empty in Ht).
  rewrite (generateComicStory_run _ _ _ _ _ _ _ Hkey Hne Hp), Hraw.
  assert (trim (remove_all fences (or_else (Some raw) (js "{}")))
          = trim t) as ->.
  { destruct Hshape as [->|(opener & Hop & ->)].
    - by rewrite or_else_nonempty, remove_all_fence_free.
    - rewrite or_else_nonempty by by apply fenced_nonempty.
      by rewrite clean_fenced, remove_all_fence_free. }
  by rewrite (JSON_parse_trim _ _ Ht).
Qed.

(** C6 (as amended): for well-formed JSON [t], the story obtained from [t]
    between an opening fence line, [```json] or [```], and a closing fence
    line is the story obtained from [t] itself: what [JSON.parse] makes of
    [t] once its fence markers are removed and the result trimmed (the
    untitled story if that is not JSON), and so [JSON.parse(t)] itself when
    [t] holds no fence marker. *)
Theorem generateComicStory_fenced
    env key prompt language log provider1 provider2 r1 r2 opener t v :
  GEMINI_API_KEY env = Some key -> key <> [] ->
  JSON_parse t = Some v ->
  opener ∈ fences ->
  provider1 (length log)
    (story_request prompt (default (js "pt-BR") language)) = Returned r1 ->
  response_text r1 = Some (fenced opener t) ->
  provider2 (length log)
    (story_request prompt (default (js "pt-BR") language)) = Returned r2 ->
  response_text r2 = Some t ->
  exists story,
    generateComicStory env provider1 prompt language log
    = (Returned story,
       log ++ [story_request prompt (default (js "pt-BR") language)])
    /\ generateComicStory env provider2 prompt language log
       = (Returned story,
          log ++ [story_request prompt (default (js "pt-BR") language)])
    /\ story = match JSON_parse (trim (remove_all fences t)) with
               | Some parsed => parsed
               | None => untitled_story
               end
    /\ (occurs fence t = false -> story = v).
Proof.
  intros Hkey Hne Ht Hop Hp1 Hr1 Hp2 Hr2.
  assert (t <> []) as Hnil by (intros ->; by rewrite JSON_parse_empty in Ht).
  eexists. split; [|split; [|split]].
  - rewrite (generateComicStory_run _ _ _ _ _ _ _ Hkey Hne Hp1), Hr1.
    rewrite or_else_nonempty by by apply fenced_nonempty.
    rewrite clean_fenced by done. reflexivity.
  - rewrite (generateComicStory_run _ _ _ _ _ _ _ Hkey Hne Hp2), Hr2.
    by rewrite or_else_nonempty.
  - reflexivity.
  - intros Hfree. rewrite remove_all_fence_free by done.
    by rewrite (JSON_parse_trim _ _ Ht).
Qed.

Lemma generateComicStory_fenced_witness :
  exists story,
    generateComicStory configured
      (answering (Some (fenced fence_json empty_story_text)))
      (js "tema") None []
    = (Returned story, [] ++ [story_request (js "tema") (js "pt-BR")])
    /\ generateComicStory configured (answering (Some empty_story_text))
         (js "tema") None []
       = (Returned story, [] ++ [story_request (js "tema") (js "pt-BR")])
    /\ story = match JSON_parse (trim (remove_all fences empty_story_text)) with
               | Some parsed => parsed
               | None => untitled_story
               end
    /\ (occurs fence empty_story_text = false ->
        story = JObject [ (js "title", JString (js "T"));
                          (js "panels", JArray []) ]).
Proof.
  eapply (generateComicStory_fenced configured (js "key") (js "tema") None []
            _ _ _ _ fence_json empty_story_text).
  - reflexivity.
  - vm_compute. discriminate.
  - vm_compute. reflexivity.
  - left.
  - reflexivity.
  - reflexivity.
  - reflexivity.
  - reflexivity.
Defined.

(** C6 (as stated) fails: a fence whose info string is not exactly "json",
    here "JSON", is only partly removed; the tag left over makes the parse
    fail and the untitled story comes back instead of the parsed payload. *)
Lemma generateComicStory_fence_tag :
  let run raw :=
    (generateComicStory configured (answering raw) (js "tema") None []).1 in
  JSON_parse empty_story_text
  = Some (JObject [ (js "title", JString (js "T"));
                    (js "panels", JArray []) ])
  /\ run (Some empty_story_text)
     = Returned (JObject [ (js "title", JString (js "T"));
                           (js "panels", JArray []) ])
  /\ trim (remove_all fences (fenced (js "```JSON") empty_story_text))
     = js "JSON" ++ [10] ++ empty_story_text
  /\ run (Some (fenced (js "```JSON") empty_story_text))
     = Returned untitled_story
  /\ run (Some (fenced (js "```JSON") empty_story_text))
     <> run (Some empty_story_text).
Proof.
  vm_compute. repeat split; try reflexivity. discriminate.
Qed.

End CleaningFacts.

(** * Further properties of the creation workflow *)
Section WorkflowRuns.
Import Gemini Server App.

Variable env : Env.
Variable provider : nat -> Request -> outcome Response.
Variable uuidv4 : nat -> jsstring.

(** The comic row written by [POST /api/comics] for the next identifier. *)
Lemma post_comics_run title description s :
  has_comic (uuidv4 (uuid_calls s)) (db s) = false ->
  handle uuidv4 (POST_comics title description) s
  = (res_json (CreatedComic (uuidv4 (uuid_calls s)) title description),
     with_db
       {| comics := comics (db s)
                    ++ [ {| comics_id := uuidv4 (uuid_calls s);
                            comics_title := title;
                            comics_description := description;
                            comics_created_at := clock s |} ];
          panels := panels (db s);
          foreign_keys := foreign_keys (db s) |} (drew_uuid s)).
Proof.
  intros Hnew. cbn [handle]. unfold post_comics, insert_comic.
  cbn [drew_uuid db uuid_calls clock comics_id]. by rewrite Hnew.
Qed.

(** Up to the loop: the story has panels and the comic is created. *)
Lemma handleCreateComic_enters_loop
    prompt language userImage w story log title items :
  prompt <> [] ->
  generateComicStory env provider prompt (Some language) (ai_log w)
  = (Returned story, log) ->
  story_panels story = Ok (Some items) -> items <> [] ->
  story_title story = Ok title ->
  has_comic (uuidv4 (uuid_calls (server w))) (db (server w)) = false ->
  handleCreateComic env provider uuidv4 prompt language userImage w
  = match generate_panels env provider uuidv4
            (uuidv4 (uuid_calls (server w))) userImage items 0
            {| ai_log := log;
               server := (handle uuidv4 (POST_comics title prompt)
                            (server w)).2;
               http_log := http_log w ++ [POST_comics title prompt];
               alerts := alerts w |} with
    | (Ok _, w') => (Ok tt, w')
    | (Exn _, w') => alert failure_notice w'
    | (Unmodelled, w') => (Unmodelled, w')
    end.
Proof.
  intros Hprompt Hstory Hpanels Hitems Htitle Hnew.
  unfold handleCreateComic. destruct prompt as [|c prompt]; [done|].
  cbn [is_empty]. unfold try_catch.
  rewrite (bind_ok _ _ _ _ _ (await_returned _ _ _ _ Hstory)).
  assert (forall A (r : result A) w0, eval r w0 = (r, w0)) as Heval by done.
  rewrite (bind_ok _ _ _ _ _ (eq_trans (Heval _ _ _)
                                (f_equal (fun r => (r, _)) Hpanels))).
  destruct items as [|p items]; [done|].
  rewrite (bind_ok _ _ _ _ _ (eq_trans (Heval _ _ _)
                                (f_equal (fun r => (r, _)) Htitle))).
  rewrite (post_comics_run title (c :: prompt) (server w) Hnew). cbn [snd].
  set (s1 := with_db _ _).
  set (id := uuidv4 (uuid_calls (server w))).
  set (w1 := {| ai_log := log; server := s1;
                http_log := http_log w ++ [POST_comics title (c :: prompt)];
                alerts := alerts w |}).
  assert (fetch uuidv4 (POST_comics title (c :: prompt))
            {| ai_log := log; server := server w; http_log := http_log w;
               alerts := alerts w |}
          = (Ok (res_json (CreatedComic id title (c :: prompt))), w1))
    as Hfetch
    by (unfold fetch; cbn [server ai_log http_log alerts];
        by rewrite (post_comics_run title (c :: prompt) (server w) Hnew)).
  rewrite (bind_ok _ _ _ _ _ Hfetch).
  assert (json (res_json (CreatedComic id title (c :: prompt))) w1
          = (Ok (CreatedComic id title (c :: prompt)), w1)) as Hjson by done.
  rewrite (bind_ok _ _ _ _ _ Hjson).
  unfold mbind at 1. unfold App_bind at 1.
  by destruct (generate_panels _ _ _ _ _ _ _ _) as [[created|e|] w'].
Qed.

(** The server is written to only for a story that has panels.  For every
    story whose [panels] property the model reads (absent, [null], [false],
    the empty string, or an array of panel objects; also a story that is
    [null] or no object at all), a run of [handleCreateComic] that does
    not get a non-empty panel list (empty prompt, missing key, rejected
    story call, no panels) sends no request and leaves the store as it
    was.  Other values of [panels] ([true], numbers, objects, non-empty
    strings, arrays with other items) are left out. *)
Theorem no_write_without_panels prompt language userImage w :
  let r := handleCreateComic env provider uuidv4 prompt language userImage w in
  (forall story log,
     generateComicStory env provider prompt (Some language) (ai_log w)
     = (Returned story, log) ->
     story_panels story <> Unmodelled) ->
  (r.1 = Ok tt /\ http_log r.2 = http_log w /\ server r.2 = server w)
  \/ (exists story log items,
        prompt <> []
        /\ generateComicStory env provider prompt (Some language) (ai_log w)
           = (Returned story, log)
        /\ story_panels story = Ok (Some items) /\ items <> []).
Proof.
  cbn zeta. intros Hread. unfold handleCreateComic.
  destruct prompt as [|c prompt]; [by left|]. cbn [is_empty].
  destruct (generateComicStory env provider (c :: prompt) (Some language)
              (ai_log w)) as [[story|e] log] eqn:Hstory.
  - specialize (Hread story log eq_refl).
    destruct (story_panels story) as [[[|p items]|]|e|] eqn:Hpanels.
    2:{ right. by exists story, log, (p :: items). }
    4:{ done. }
    all: left; unfold try_catch, mbind, App_bind, await; rewrite Hstory;
      unfold eval; rewrite Hpanels; done.
  - left. unfold try_catch, mbind, App_bind, await. by rewrite Hstory.
Qed.


Lemma generatePanelImage_rejected key description ref log e :
  GEMINI_API_KEY env = Some key -> key <> [] ->
  provider (length log) (image_request description ref) = Threw e ->
  generatePanelImage env provider description ref log
  = (Threw e, log ++ [image_request description ref]).
Proof.
  intros Hkey Hne Hp. unfold generatePanelImage, mbind, AI_bind, bind.
  rewrite (getAI_configured _ _ _ Hkey Hne). unfold generateContent.
  by rewrite Hp.
Qed.

(** The loop when the image request of one panel is rejected: the panels
    before it are handled as usual and the loop stops there. *)
Lemma generate_panels_fails key comic_id userImage p post e :
  GEMINI_API_KEY env = Some key -> key <> [] ->
  forall pre imgs i w,
    length imgs = length pre ->
    (forall k q,
       pre !! k = Some q ->
       exists response,
         provider (length (ai_log w) + k)
           (image_request (visualDescription q) (truthy userImage))
         = Returned response
         /\ imgs !! k = Some (first_inline_image (response_parts response))) ->
    provider (length (ai_log w) + length pre)
      (image_request (visualDescription p) (truthy userImage)) = Threw e ->
    accepts uuidv4 comic_id (server w) ->
    exists w' rows,
      generate_panels env provider uuidv4 comic_id userImage
        (pre ++ p :: post) i w
      = (Exn e, w')
      /\ http_log w' = http_log w ++ kept_writes comic_id pre imgs i
      /\ panels (db (server w')) = panels (db (server w)) ++ rows
      /\ row_fields <$> rows = panel_writes (kept_writes comic_id pre imgs i)
      /\ comics (db (server w')) = comics (db (server w))
      /\ alerts w' = alerts w.
Proof.
  intros Hkey Hne pre.
  induction pre as [|q pre IH]; intros imgs i w Hlen Himgs Hrej Hacc.
  - destruct imgs; [|done]. rewrite Nat.add_0_r in Hrej.
    cbn [app generate_panels]. unfold mbind at 1. unfold App_bind at 1.
    unfold await at 1.
    rewrite (generatePanelImage_rejected _ _ _ _ _ Hkey Hne Hrej).
    eexists _, []. split; [reflexivity|]. cbn [http_log server alerts].
    cbn [kept_writes]. by rewrite !app_nil_r.
  - destruct imgs as [|img imgs]; [done|].
    destruct (Himgs 0%nat q eq_refl) as (response & Hp & Himg).
    rewrite Nat.add_0_r in Hp. injection Himg as ->.
    cbn [app generate_panels]. unfold mbind at 1. unfold App_bind at 1.
    unfold await at 1.
    rewrite (generatePanelImage_run _ _ _ _ _ _ _ Hkey Hne Hp).
    rewrite truthy_first_inline_image.
    set (log := ai_log w ++ _).
    assert (length log = S (length (ai_log w))) as Hlog
      by (unfold log; rewrite length_app; simpl; lia).
    assert (forall s hl,
              (forall k r,
                 pre !! k = Some r ->
                 exists response,
                   provider
                     (length (ai_log {| ai_log := log; server := s;
                                        http_log := hl;
                                        alerts := alerts w |}) + k)
                     (image_request (visualDescription r) (truthy userImage))
                   = Returned response
                   /\ imgs !! k
                      = Some (first_inline_image (response_parts response)))
              /\ provider
                   (length (ai_log {| ai_log := log; server := s;
                                      http_log := hl;
                                      alerts := alerts w |}) + length pre)
                   (image_request (visualDescription p) (truthy userImage))
                 = Threw e)
      as Hnext.
    { intros s hl. cbn [ai_log]. rewrite Hlog. split.
      - intros k r Hr. destruct (Himgs (S k) r Hr) as (r' & Hr' & Hi).
        exists r'. split; [|done]. rewrite <- Hr'. f_equal. lia.
      - rewrite <- Hrej. f_equal. simpl. lia. }
    destruct (first_inline_image (response_parts response)) as [url|].
    + destruct (post_panels_accepted uuidv4 comic_id url (caption q)
                  (Z.of_nat i) (server w) Hacc)
        as (s' & Hpost & Hacc' & Hrows & Hcomics).
      unfold mbind at 1. unfold App_bind at 1. unfold fetch at 1.
      cbn [server ai_log http_log alerts]. rewrite Hpost.
      unfold mbind at 1. unfold App_bind at 1. unfold json at 1.
      cbn [body res_json]. unfold mret at 1. unfold App_ret at 1.
      unfold mbind at 1. unfold App_bind at 1.
      destruct (Hnext s' (http_log w
                          ++ [POST_panels comic_id url (caption q)
                                (Z.of_nat i)])) as [Hn1 Hn2].
      destruct (IH imgs (S i) _ ltac:(by injection Hlen) Hn1 Hn2 Hacc')
        as (w' & rows & Hrun & Hhl & Hpanels & Hfields & Hc & Ha).
      rewrite Hrun. eexists w', (_ :: rows).
      split; [reflexivity|].
      cbn [http_log server alerts ai_log] in *.
      split; [by rewrite Hhl, <- app_assoc|].
      split; [by rewrite Hpanels, Hrows, <- app_assoc|].
      split; [rewrite fmap_cons, Hfields; reflexivity|].
      split; [by rewrite Hc|done].
    + destruct (Hnext (server w) (http_log w)) as [Hn1 Hn2].
      destruct (IH imgs (S i) _ ltac:(by injection Hlen) Hn1 Hn2 Hacc)
        as (w' & rows & Hrun & Hhl & Hpanels & Hfields & Hc & Ha).
      rewrite Hrun. by exists w', rows.
Qed.

(** No rollback: when the image request of one panel is rejected, the
    workflow notifies the failure and stops, and the comic created before
    the loop stays stored together with the panels written so far. *)
Theorem image_failure_keeps_comic
    key prompt language userImage w story log title pre p post imgs e :
  GEMINI_API_KEY env = Some key -> key <> [] ->
  prompt <> [] ->
  generateComicStory env provider prompt (Some language) (ai_log w)
  = (Returned story, log) ->
  story_panels story = Ok (Some (pre ++ p :: post)) ->
  story_title story = Ok title ->
  length imgs = length pre ->
  (forall k q,
     pre !! k = Some q ->
     exists response,
       provider (length log + k)
         (image_request (visualDescription q) (truthy userImage))
       = Returned response
       /\ imgs !! k = Some (first_inline_image (response_parts response))) ->
  provider (length log + length pre)
    (image_request (visualDescription p) (truthy userImage)) = Threw e ->
  has_comic (uuidv4 (uuid_calls (server w))) (db (server w)) = false ->
  (forall n, (uuid_calls (server w) < n)%nat ->
             has_panel (uuidv4 n) (db (server w)) = false) ->
  (forall m n, (uuid_calls (server w) <= m < n)%nat ->
               uuidv4 m <> uuidv4 n) ->
  exists w' writes rows,
    handleCreateComic env provider uuidv4 prompt language userImage w
    = (Ok tt, w')
    /\ alerts w' = alerts w ++ [failure_notice]
    /\ http_log w' = http_log w ++ POST_comics title prompt :: writes
    /\ comics (db (server w'))
       = comics (db (server w))
         ++ [ {| comics_id := uuidv4 (uuid_calls (server w));
                 comics_title := title; comics_description := prompt;
                 comics_created_at := clock (server w) |} ]
    /\ panels (db (server w')) = panels (db (server w)) ++ rows
    /\ row_fields <$> rows = panel_writes writes
    /\ (forall req,
          req ∈ writes
          <-> exists k q url,
                pre !! k = Some q /\ imgs !! k = Some (Some url)
                /\ req = POST_panels (uuidv4 (uuid_calls (server w))) url
                           (caption q) (Z.of_nat k)).
Proof.
  intros Hkey Hne Hprompt Hstory Hpanels Htitle Hlen Himgs Hrej
    Hnew Hfresh Hinj.
  rewrite (handleCreateComic_enters_loop _ _ _ _ _ _ _ _
             Hprompt Hstory Hpanels ltac:(by destruct pre) Htitle Hnew).
  destruct (post_comics_accepted uuidv4 title prompt (server w)
              Hnew Hfresh Hinj) as (s1 & Hpost & Hacc & Hsame).
  rewrite (post_comics_run title prompt (server w) Hnew) in Hpost |- *.
  injection Hpost as <-. cbn [snd].
  set (id := uuidv4 (uuid_calls (server w))) in *.
  set (s1 := with_db _ _) in *.
  destruct (generate_panels_fails key id userImage p post e Hkey Hne
              pre imgs 0
              {| ai_log := log; server := s1;
                 http_log := http_log w ++ [POST_comics title prompt];
                 alerts := alerts w |} Hlen Himgs Hrej Hacc)
    as (w' & rows & Hrun & Hhl & Hrows & Hfields & Hc & Ha).
  rewrite Hrun. cbn [http_log server alerts ai_log] in *.
  eexists _, (kept_writes id pre imgs 0), rows.
  split; [reflexivity|]. unfold alert. cbn [alerts http_log server].
  split; [by rewrite Ha|].
  split; [by rewrite Hhl, <- app_assoc|].
  split; [by rewrite Hc|].
  split; [by rewrite Hrows, Hsame|].
  split; [done|]. intros req. by rewrite kept_writes_elem.
Qed.

#[local] Existing Instance order_index_le_total.
#[local] Existing Instance order_index_le_trans.

Lemma strictly_increasing_rows_distinct (rows : list PanelRow) x1 x2 :
  StronglySorted Z.lt (panels_order_index <$> rows) ->
  x1 ∈ rows -> x2 ∈ rows ->
  panels_order_index x1 = panels_order_index x2 -> x1 = x2.
Proof.
  induction rows as [|r rows IH]; [by intros _ ?%elem_of_nil|].
  rewrite fmap_cons. intros [Hrest Hr]%StronglySorted_inv.
  rewrite Forall_fmap, Forall_forall in Hr.
  intros [->|H1]%elem_of_cons [->|H2]%elem_of_cons Heq; [done| | |by apply IH].
  - specialize (Hr x2 H2). simpl in Hr. lia.
  - specialize (Hr x1 H1). simpl in Hr. lia.
Qed.

(** Rows already in strictly increasing [order_index] come back from the
    [ORDER BY] clause in the same order. *)
Lemma merge_sort_increasing (rows : list PanelRow) :
  StronglySorted Z.lt (panels_order_index <$> rows) ->
  merge_sort order_index_le rows = rows.
Proof.
  intros Hinc.
  apply (StronglySorted_unique_strong order_index_le).
  - intros x1 x2 H1 H2 H12 H21.
    apply (strictly_increasing_rows_distinct rows); [done| |done|].
    + by rewrite <- (merge_sort_Permutation order_index_le rows).
    + unfold order_index_le in *. lia.
  - apply (StronglySorted_merge_sort _).
  - clear -Hinc. induction rows as [|r rows IH]; [constructor|].
    rewrite fmap_cons in Hinc. apply StronglySorted_inv in Hinc as [Hrest Hr].
    constructor; [by apply IH|].
    rewrite Forall_fmap in Hr. eapply Forall_impl; [exact Hr|].
    intros x. unfold order_index_le. simpl. lia.
  - apply merge_sort_Permutation.
Qed.


Lemma kept_writes_comic comic_id items imgs i :
  Forall (fun x => x.1.1.1 = comic_id)
    (panel_writes (kept_writes comic_id items imgs i)).
Proof.
  revert imgs i. induction items as [|p items IH]; intros imgs i;
    [by constructor|].
  destruct imgs as [|img imgs]; [by constructor|].
  cbn [kept_writes]. unfold panel_writes. rewrite omap_app.
  apply Forall_app. split; [|apply IH].
  destruct img; repeat constructor.
Qed.

Lemma filter_all {A} (P : A -> Prop) `{!forall x, Decision (P x)}
    (l : list A) :
  Forall P l -> filter P l = l.
Proof.
  induction 1 as [|x l Hx _ IH]; [done|].
  by rewrite filter_cons, decide_True, IH.
Qed.

(** Reading back a comic just created, for well-formed text (the store
    keeps text as UTF-8, which has no place for a lone surrogate): on a
    store where the identifiers to come are new and no panel refers to
    the new comic yet, [GET /api/comics/:id] of the comic created by
    [handleCreateComic] answers with the title of the story, the prompt
    as description and the panels in the very order the workflow wrote
    them. *)
Theorem created_comic_reads_back
    key prompt language userImage w story log title items imgs :
  GEMINI_API_KEY env = Some key -> key <> [] ->
  prompt <> [] ->
  generateComicStory env provider prompt (Some language) (ai_log w)
  = (Returned story, log) ->
  story_panels story = Ok (Some items) -> items <> [] ->
  story_title story = Ok title ->
  isWellFormed title = true -> isWellFormed prompt = true ->
  (forall k p, items !! k = Some p -> isWellFormed (caption p) = true) ->
  (forall k url, imgs !! k = Some (Some url) -> isWellFormed url = true) ->
  length imgs = length items ->
  (forall k p,
     items !! k = Some p ->
     exists response,
       provider (length log + k)
         (image_request (visualDescription p) (truthy userImage))
       = Returned response
       /\ imgs !! k = Some (first_inline_image (response_parts response))) ->
  has_comic (uuidv4 (uuid_calls (server w))) (db (server w)) = false ->
  references (uuidv4 (uuid_calls (server w))) (db (server w)) = false ->
  (forall n, (uuid_calls (server w) < n)%nat ->
             has_panel (uuidv4 n) (db (server w)) = false) ->
  (forall m n, (uuid_calls (server w) <= m < n)%nat ->
               uuidv4 m <> uuidv4 n) ->
  exists w' writes rows,
    handleCreateComic env provider uuidv4 prompt language userImage w
    = (Ok tt, w')
    /\ http_log w' = http_log w ++ POST_comics title prompt :: writes
    /\ (handle uuidv4 (GET_comic (uuidv4 (uuid_calls (server w))))
          (server w')).1
       = res_json
           (ComicWithPanels
              {| comics_id := uuidv4 (uuid_calls (server w));
                 comics_title := title; comics_description := prompt;
                 comics_created_at := clock (server w) |}
              rows)
    /\ row_fields <$> rows = panel_writes writes
    /\ StronglySorted Z.lt (panels_order_index <$> rows).
Proof.
  intros Hkey Hne Hprompt Hstory Hpanels Hitems Htitle _ _ _ _ Hlen Himgs
    Hnew Hrefs Hfresh Hinj.
  rewrite (handleCreateComic_enters_loop _ _ _ _ _ _ _ _
             Hprompt Hstory Hpanels Hitems Htitle Hnew).
  destruct (post_comics_accepted uuidv4 title prompt (server w)
              Hnew Hfresh Hinj) as (s1 & Hpost & Hacc & Hsame).
  rewrite (post_comics_run title prompt (server w) Hnew) in Hpost |- *.
  injection Hpost as <-. cbn [snd].
  set (id := uuidv4 (uuid_calls (server w))) in *.
  set (s1 := with_db _ _) in *.
  destruct (generate_panels_run env provider uuidv4 key id userImage Hkey Hne
              items imgs 0
              {| ai_log := log; server := s1;
                 http_log := http_log w ++ [POST_comics title prompt];
                 alerts := alerts w |} Hlen Himgs Hacc)
    as (created & w' & rows & Hrun & Hhl & Hrows & Hfields & Hc & _).
  rewrite Hrun. cbn [http_log server alerts ai_log] in *.
  exists w', (kept_writes id items imgs 0), rows.
  assert (StronglySorted Z.lt (panels_order_index <$> rows)) as Hsorted.
  { pose proof (kept_writes_increasing id items imgs 0) as Hinc.
    rewrite <- Hfields, <- list_fmap_compose in Hinc. exact Hinc. }
  split; [done|]. split; [by rewrite Hhl, <- app_assoc|].
  split; [|done].
  cbn [handle]. unfold get_comic, select_comic, select_panels.
  rewrite Hc, Hrows, Hsame. unfold s1. cbn [with_db db comics].
  rewrite find_app_absent.
  2:{ intros c Hc'. apply not_true_iff_false. rewrite jsstring_eqb_true.
      intros Hid. apply has_comic_false in Hnew. apply Hnew.
      apply list_elem_of_fmap. by exists c. }
  cbn [find comics_id]. unfold jsstring_eqb at 1.
  rewrite bool_decide_eq_true_2 by done.
  rewrite filter_app.
  rewrite (list_filter_nil_absent _ (panels (db (server w)))).
  2:{ intros p Hp Hid. apply not_true_iff_false in Hrefs. apply Hrefs.
      unfold references. apply existsb_exists. exists p.
      split; [by apply list_elem_of_In | by apply jsstring_eqb_true]. }
  rewrite filter_all.
  2:{ pose proof (kept_writes_comic id items imgs 0) as Hall.
      rewrite <- Hfields, Forall_fmap in Hall. exact Hall. }
  cbn [app fst]. by rewrite merge_sort_increasing.
Qed.

End WorkflowRuns.

(** * The list of comics shown *)
Section ShelfFacts.
Import Gemini Server App Shelf.

Variable uuidv4 : nat -> jsstring.

#[local] Existing Instance created_at_ge_total.
#[local] Existing Instance created_at_ge_trans.

Lemma fmap_filter_key {A B} (f : A -> B) (P : B -> Prop)
    `{!forall y, Decision (P y)} (l : list A) :
  f <$> filter (fun x => P (f x)) l = filter P (f <$> l).
Proof.
  induction l as [|x l IH]; [done|].
  rewrite fmap_cons, !filter_cons.
  destruct (decide (P (f x))); [by rewrite fmap_cons, IH|done].
Qed.

(** After [fetchComics] the list shown holds exactly the stored comics,
    the most recently created first; the store is only read. *)
Theorem fetchComics_mirrors_store w scr :
  exists w' scr' rows,
    fetchComics uuidv4 (w, scr) = (Ok tt, (w', scr'))
    /\ server w' = server w
    /\ http_log w' = http_log w ++ [GET_comics]
    /\ state_comics scr' = listed <$> rows
    /\ rows ≡ₚ comics (db (server w))
    /\ StronglySorted (fun a b => (b <= a)%N) (comics_created_at <$> rows)
    /\ mirrors scr' (server w').
Proof.
  eexists _, _, (select_comics (db (server w))).
  split; [reflexivity|]. cbn [server http_log state_comics].
  split; [done|]. split; [done|]. split; [done|].
  split; [apply merge_sort_Permutation|].
  split.
  - apply (StronglySorted_fmap _ created_at_ge); [done|].
    apply (StronglySorted_merge_sort _).
  - unfold mirrors. cbn [state_comics server].
    rewrite <- list_fmap_compose.
    apply fmap_Permutation, merge_sort_Permutation.
Qed.

(** [handleDeleteComic] does nothing when the user declines.  When the
    user confirms, one [DELETE] request is sent, the comic leaves the list
    shown while every other comic stays, the view returns to the home
    page if the deleted comic was the current one, and a list that held
    the same comics as the store still does. *)
Theorem handleDeleteComic_keeps_mirror id w scr :
  mirrors scr (server w) ->
  handleDeleteComic uuidv4 id false (w, scr) = (Ok tt, (w, scr))
  /\ exists w' scr',
       handleDeleteComic uuidv4 id true (w, scr) = (Ok tt, (w', scr'))
       /\ http_log w' = http_log w ++ [DELETE_comic id]
       /\ state_comics scr'
          = filter (fun c => Comic_id c <> id) (state_comics scr)
       /\ state_view scr'
          = (if is_current scr id then home else state_view scr)
       /\ (forall c, c ∈ comics (db (server w')) -> comics_id c <> id)
       /\ mirrors scr' (server w').
Proof.
  intros Hmirror. split; [done|].
  unfold handleDeleteComic, fetch. cbn [negb handle].
  rewrite delete_comic_route_run.
  eexists _, _. split; [reflexivity|].
  cbn [http_log server state_comics state_view with_db db comics].
  split; [done|]. split; [done|]. split; [done|]. split.
  - by intros c [Hc _]%list_elem_of_filter.
  - unfold mirrors in *. cbn [state_comics server with_db db comics].
    pose proof (fmap_filter_key Comic_id (fun i => i <> id)
                  (state_comics scr)) as Hshown.
    pose proof (fmap_filter_key comics_id (fun i => i <> id)
                  (comics (db (server w)))) as Hstored.
    cbn beta in Hshown, Hstored. rewrite Hshown, Hstored.
    by rewrite Hmirror.
Qed.

End ShelfFacts.

(** * The further properties at work *)
Section FurtherExamples.
Import Gemini Server App Shelf Samples Scenarios.

Lemma primary_keys_distinct_witness :
  NoDup (comics_id <$> comics (db two_comics))
  /\ NoDup (panels_id <$> panels (db two_comics)).
Proof.
  apply (primary_keys_distinct counter_uuid two_comics).
  apply reachable_serve. constructor.
Defined.

Lemma panels_reference_comics_witness :
  exists c,
    c ∈ comics (db two_comics)
    /\ comics_id c
       = panels_comic_id
           {| panels_id := counter_uuid 2; panels_comic_id := counter_uuid 1;
              panels_image_url := js "data:x"; panels_caption := js "only";
              panels_order_index := 0 |}.
Proof.
  apply (panels_reference_comics counter_uuid two_comics).
  - apply reachable_serve. constructor.
  - reflexivity.
  - vm_compute. left.
Defined.

Lemma no_panel_after_delete_witness :
  let s1 := (handle counter_uuid (DELETE_comic (counter_uuid 0)) stocked).2 in
  let r := handle counter_uuid
             (POST_panels (counter_uuid 0) (js "data:z") (js "late") 5) s1 in
  r.1 = uncaught
  /\ comics (db r.2) = comics (db s1) /\ panels (db r.2) = panels (db s1).
Proof.
  apply (no_panel_after_delete counter_uuid (counter_uuid 0) (js "data:z")
           (js "late") 5 stocked).
  reflexivity.
Defined.

Lemma delete_keeps_others_witness :
  (handle counter_uuid (GET_comic (counter_uuid 1))
     (handle counter_uuid (DELETE_comic (counter_uuid 0)) two_comics).2).1
  = (handle counter_uuid (GET_comic (counter_uuid 1)) two_comics).1.
Proof.
  apply (delete_keeps_others counter_uuid (counter_uuid 0) (counter_uuid 1)
           two_comics).
  vm_compute. discriminate.
Defined.

Lemma create_then_read_witness :
  (handle counter_uuid (GET_comic (counter_uuid 3))
     (serve counter_uuid
        [ POST_comics (js "T") (js "D");
          POST_panels (counter_uuid 3) (js "data:...") (js "C") 0 ]
        two_comics)).1
  = res_json
      (ComicWithPanels
         {| comics_id := counter_uuid 3; comics_title := js "T";
            comics_description := js "D"; comics_created_at := 0 |}
         [ {| panels_id := counter_uuid 4; panels_comic_id := counter_uuid 3;
              panels_image_url := js "data:..."; panels_caption := js "C";
              panels_order_index := 0 |} ]).
Proof.
  apply (create_then_read counter_uuid (js "T") (js "D") (js "data:...")
           (js "C") 0 two_comics); vm_compute; reflexivity.
Defined.

Lemma one_request_per_call_witness :
  (generateComicStory configured refusing (js "tema") None []).2
  = [] ++ [story_request (js "tema") (default (js "pt-BR") None)]
  /\ (generatePanelImage configured refusing (js "um gato") None []).2
     = [] ++ [image_request (js "um gato") None]
  /\ (translateText configured refusing (js "olá") (js "en") []).2
     = [] ++ [translate_request (js "olá") (js "en")].
Proof.
  destruct (one_request_per_call configured refusing (js "key") [])
    as (Hstory & Himage & Htext); [reflexivity | vm_compute; discriminate |].
  split; [|split].
  - exact (Hstory (js "tema") None).
  - exact (Himage (js "um gato") None).
  - exact (Htext (js "olá") (js "en")).
Defined.

Lemma provider_rejection_propagates_witness :
  generateComicStory configured refusing (js "tema") None []
  = (Threw (Rejection (js "offline")), [story_request (js "tema") (js "pt-BR")])
  /\ generatePanelImage configured refusing (js "um gato") None []
     = (Threw (Rejection (js "offline")), [image_request (js "um gato") None])
  /\ translateText configured refusing (js "olá") (js "en") []
     = (Threw (Rejection (js "offline")),
        [translate_request (js "olá") (js "en")]).
Proof.
  destruct (provider_rejection_propagates configured refusing (js "key") []
              (Rejection (js "offline")))
    as (Hstory & Himage & Htext);
    [reflexivity | vm_compute; discriminate |].
  split; [|split].
  - apply (Hstory (js "tema") None). reflexivity.
  - apply (Himage (js "um gato") None). reflexivity.
  - apply (Htext (js "olá") (js "en")). reflexivity.
Defined.

Lemma generateComicStory_parses_payload_witness :
  generateComicStory configured
    (answering (Some (fenced fence empty_story_text))) (js "tema") None []
  = (Returned (JObject [ (js "title", JString (js "T"));
                         (js "panels", JArray []) ]),
     [] ++ [story_request (js "tema") (js "pt-BR")]).
Proof.
  apply (generateComicStory_parses_payload configured (js "key")
           (answering (Some (fenced fence empty_story_text))) (js "tema")
           None []
           {| response_text := Some (fenced fence empty_story_text);
              candidates := None |}
           (fenced fence empty_story_text) empty_story_text).
  - reflexivity.
  - vm_compute. discriminate.
  - reflexivity.
  - reflexivity.
  - right. exists fence. split; [right; left | reflexivity].
  - vm_compute. reflexivity.
  - vm_compute. reflexivity.
Defined.

Lemma generatePanelImage_png_uri_witness :
  (exists payload,
     js "data:image/png;base64,QUJD" = js "data:image/png;base64," ++ payload)
  /\ truthy (Some (js "data:image/png;base64,QUJD"))
     = Some (js "data:image/png;base64,QUJD").
Proof.
  apply (generatePanelImage_png_uri configured
           (drawing [text_part "ok"; inline_part "QUJD"])
           (js "um gato") None [] (js "data:image/png;base64,QUJD")
           [image_request (js "um gato") None]).
  vm_compute. reflexivity.
Defined.

Lemma image_failure_keeps_comic_witness :
  exists w' writes rows,
    handleCreateComic configured exhausted counter_uuid (js "tema")
      (js "pt-BR") None fresh_world
    = (Ok tt, w')
    /\ alerts w' = alerts fresh_world ++ [failure_notice]
    /\ http_log w'
       = http_log fresh_world ++ POST_comics (js "T") (js "tema") :: writes
    /\ comics (db (server w'))
       = comics (db (server fresh_world))
         ++ [ {| comics_id := counter_uuid (uuid_calls (server fresh_world));
                 comics_title := js "T"; comics_description := js "tema";
                 comics_created_at := clock (server fresh_world) |} ]
    /\ panels (db (server w')) = panels (db (server fresh_world)) ++ rows
    /\ row_fields <$> rows = panel_writes writes
    /\ (forall req,
          req ∈ writes
          <-> exists k q url,
                [ {| visualDescription := js "d0"; caption := js "c0" |} ]
                  !! k = Some q
                /\ [Some drawn] !! k = Some (Some url)
                /\ req = POST_panels
                           (counter_uuid (uuid_calls (server fresh_world)))
                           url (caption q) (Z.of_nat k)).
Proof.
  apply (image_failure_keeps_comic configured exhausted counter_uuid
           (js "key") (js "tema") (js "pt-BR") None fresh_world
           three_panel_story [story_request (js "tema") (js "pt-BR")]
           (js "T")
           [ {| visualDescription := js "d0"; caption := js "c0" |} ]
           {| visualDescription := js "d1"; caption := js "c1" |}
           [ {| visualDescription := js "d2"; caption := js "c2" |} ]
           [Some drawn] (Rejection (js "quota"))).
  - reflexivity.
  - vm_compute. discriminate.
  - vm_compute. discriminate.
  - vm_compute. reflexivity.
  - vm_compute. reflexivity.
  - vm_compute. reflexivity.
  - reflexivity.
  - intros [|k] q Hq; vm_compute in Hq; simplify_eq.
    eexists. split; [reflexivity|]. vm_compute. reflexivity.
  - reflexivity.
  - reflexivity.
  - intros n _. reflexivity.
  - intros m n Hmn [= Heq]. lia.
Defined.

Lemma created_comic_reads_back_witness :
  exists w' writes rows,
    handleCreateComic configured studio counter_uuid (js "tema") (js "pt-BR")
      None fresh_world
    = (Ok tt, w')
    /\ http_log w'
       = http_log fresh_world ++ POST_comics (js "T") (js "tema") :: writes
    /\ (handle counter_uuid
          (GET_comic (counter_uuid (uuid_calls (server fresh_world))))
          (server w')).1
       = res_json
           (ComicWithPanels
              {| comics_id := counter_uuid (uuid_calls (server fresh_world));
                 comics_title := js "T"; comics_description := js "tema";
                 comics_created_at := clock (server fresh_world) |}
              rows)
    /\ row_fields <$> rows = panel_writes writes
    /\ StronglySorted Z.lt (panels_order_index <$> rows).
Proof.
  apply (created_comic_reads_back configured studio counter_uuid
           (js "key") (js "tema") (js "pt-BR") None fresh_world
           three_panel_story [story_request (js "tema") (js "pt-BR")]
           (js "T") three_panels [Some drawn; None; Some drawn]).
  - reflexivity.
  - vm_compute. discriminate.
  - vm_compute. discriminate.
  - vm_compute. reflexivity.
  - vm_compute. reflexivity.
  - vm_compute. discriminate.
  - vm_compute. reflexivity.
  - vm_compute. reflexivity.
  - vm_compute. reflexivity.
  - intros [|[|[|k]]] p Hp; vm_compute in Hp; simplify_eq;
      vm_compute; reflexivity.
  - intros [|[|[|k]]] url Hurl; vm_compute in Hurl; simplify_eq;
      vm_compute; reflexivity.
  - reflexivity.
  - intros [|[|[|k]]] p Hp; vm_compute in Hp; simplify_eq;
      eexists; (split; [reflexivity|]); vm_compute; reflexivity.
  - reflexivity.
  - reflexivity.
  - intros n _. reflexivity.
  - intros m n Hmn [= Heq]. lia.
Defined.

Lemma no_write_without_panels_witness :
  let r := handleCreateComic configured (answering (Some (js "oops")))
             counter_uuid (js "tema") (js "pt-BR") None fresh_world in
  (r.1 = Ok tt /\ http_log r.2 = http_log fresh_world
   /\ server r.2 = server fresh_world)
  \/ (exists story log items,
        js "tema" <> []
        /\ generateComicStory configured (answering (Some (js "oops")))
             (js "tema") (Some (js "pt-BR")) (ai_log fresh_world)
           = (Returned story, log)
        /\ story_panels story = Ok (Some items) /\ items <> []).
Proof.
  apply (no_write_without_panels configured (answering (Some (js "oops")))
           counter_uuid (js "tema") (js "pt-BR") None fresh_world).
  intros story log Hrun. vm_compute in Hrun. injection Hrun as <- _.
  vm_compute. discriminate.
Defined.

Lemma handleDeleteComic_keeps_mirror_witness :
  handleDeleteComic counter_uuid (counter_uuid 0) false
    (stocked_world, viewing_stocked)
  = (Ok tt, (stocked_world, viewing_stocked))
  /\ exists w' scr',
       handleDeleteComic counter_uuid (counter_uuid 0) true
         (stocked_world, viewing_stocked)
       = (Ok tt, (w', scr'))
       /\ http_log w'
          = http_log stocked_world ++ [DELETE_comic (counter_uuid 0)]
       /\ state_comics scr'
          = filter (fun c => Comic_id c <> counter_uuid 0)
              (state_comics viewing_stocked)
       /\ state_view scr'
          = (if is_current viewing_stocked (counter_uuid 0) then home
             else state_view viewing_stocked)
       /\ (forall c, c ∈ comics (db (server w')) ->
                     comics_id c <> counter_uuid 0)
       /\ mirrors scr' (server w').
Proof.
  apply (handleDeleteComic_keeps_mirror counter_uuid (counter_uuid 0)
           stocked_world viewing_stocked).
  unfold mirrors. vm_compute. reflexivity.
Defined.

(** The failed run of the witness above, evaluated: the comic and its
    first panel are stored although the workflow reported a failure. *)
Example handleCreateComic_partial :
  let r := handleCreateComic configured exhausted counter_uuid (js "tema")
             (js "pt-BR") None fresh_world in
  r.1 = Ok tt
  /\ alerts r.2 = [failure_notice]
  /\ comics_title <$> comics (db (server r.2)) = [js "T"]
  /\ panels_order_index <$> panels (db (server r.2)) = [0%Z].
Proof. vm_compute. repeat split; reflexivity. Qed.

End FurtherExamples.
